(** * Current source density estimation: the dispatch layer [CSD] and the
    forward model [FWD] of [elephant/csd.py].

    The development embeds the two entry points of the module and proves
    properties of their validation order, their dimensionality dispatch and
    the forward-model integrands. *)

From Stdlib Require Import Reals Lra String ZArith Lia Bool Arith List.
Import ListNotations.

Local Open Scope string_scope.
Local Open Scope list_scope.

(* ================================================================== *)
(** * Numeric values *)
(* ================================================================== *)

(** The values held by a numpy array of doubles.  Finite values are taken
    with exact real arithmetic; the special values of IEEE-754 (the two
    infinities and NaN) are kept, with the propagation rules numpy applies
    to them (division by zero gives an infinity or NaN, it does not raise). *)
Inductive npfloat : Type :=
| Fin (r : R)
| Inf (neg : bool)
| NaN.

Definition Rneg (r : R) : bool := if Rlt_dec r 0 then true else false.
Definition Rzero (r : R) : bool := if Req_dec_T r 0 then true else false.

Definition fneg (x : npfloat) : npfloat :=
  match x with
  | Fin r => Fin (- r)
  | Inf s => Inf (negb s)
  | NaN => NaN
  end.

Definition fadd (x y : npfloat) : npfloat :=
  match x, y with
  | NaN, _ | _, NaN => NaN
  | Fin a, Fin b => Fin (a + b)
  | Inf s, Inf t => if Bool.eqb s t then Inf s else NaN
  | Inf s, Fin _ | Fin _, Inf s => Inf s
  end.

Definition fsub (x y : npfloat) : npfloat := fadd x (fneg y).

Definition fmul (x y : npfloat) : npfloat :=
  match x, y with
  | NaN, _ | _, NaN => NaN
  | Fin a, Fin b => Fin (a * b)
  | Inf s, Inf t => Inf (xorb s t)
  | Inf s, Fin b | Fin b, Inf s =>
      if Rzero b then NaN else Inf (xorb s (Rneg b))
  end.

Definition fdiv (x y : npfloat) : npfloat :=
  match x, y with
  | NaN, _ | _, NaN => NaN
  | Fin a, Fin b =>
      if Rzero b then (if Rzero a then NaN else Inf (Rneg a))
      else Fin (a / b)
  | Fin _, Inf _ => Fin 0
  | Inf s, Fin b => Inf (xorb s (Rneg b))
  | Inf _, Inf _ => NaN
  end.

(** [x ** 2] *)
Definition fsquare (x : npfloat) : npfloat := fmul x x.

Definition fsqrt (x : npfloat) : npfloat :=
  match x with
  | Fin a => if Rneg a then NaN else Fin (sqrt a)
  | Inf false => Inf false
  | Inf true => NaN
  | NaN => NaN
  end.

Definition fabs (x : npfloat) : npfloat :=
  match x with
  | Fin a => Fin (Rabs a)
  | Inf _ => Inf false
  | NaN => NaN
  end.

Definition farcsinh (x : npfloat) : npfloat :=
  match x with
  | Fin a => Fin (arcsinh a)
  | Inf s => Inf s
  | NaN => NaN
  end.

(** [x < y]; every comparison with NaN is false. *)
Definition flt (x y : npfloat) : bool :=
  match x, y with
  | Fin a, Fin b => if Rlt_dec a b then true else false
  | Inf true, Fin _ | Fin _, Inf false | Inf true, Inf false => true
  | _, _ => false
  end.

Definition finite (x : npfloat) : Prop :=
  match x with Fin _ => True | _ => False end.

(* ================================================================== *)
(** * Exceptions and the error monad *)
(* ================================================================== *)

Inductive exn : Type :=
| AttributeError (msg : string)
| ValueError (msg : string) (options : list string)
| TypeError (msg : string)
| IndexError (msg : string)
| UnboundLocalError (msg : string).

Definition result (A : Type) : Type := (exn + A)%type.

Definition ret {A} (a : A) : result A := inr a.
Definition raise {A} (e : exn) : result A := inl e.
Definition bind {A B} (m : result A) (f : A -> result B) : result B :=
  match m with
  | inl e => inl e
  | inr a => f a
  end.

Notation "x <- m ;; k" := (bind m (fun x => k))
  (at level 61, m at next level, right associativity).

(** [for ii in range(n): acc = body ii acc], stopping at the first
    exception. *)
Fixpoint for_range_from {A} (start n : nat) (acc : A)
         (body : nat -> A -> result A) : result A :=
  match n with
  | O => ret acc
  | S n' => acc' <- body start acc ;; for_range_from (S start) n' acc' body
  end.

Definition for_range {A} (n : nat) (acc : A)
           (body : nat -> A -> result A) : result A :=
  for_range_from 0 n acc body.

(** [l[i]] *)
Definition getitem {A} (l : list A) (i : nat) : result A :=
  match nth_error l i with
  | Some a => ret a
  | None => raise (IndexError "index out of bounds")
  end.

(** [l[i]] where [l] may be [None] *)
Definition getitem_opt {A} (l : option (list A)) (i : nat) : result A :=
  match l with
  | Some l => getitem l i
  | None => raise (TypeError "'NoneType' object is not subscriptable")
  end.

Fixpoint list_set {A} (l : list A) (i : nat) (v : A) : list A :=
  match l, i with
  | [], _ => []
  | _ :: t, O => v :: t
  | a :: t, S i' => a :: list_set t i' v
  end.

(** [l[i] = v] *)
Definition setitem {A} (l : list A) (i : nat) (v : A) : result (list A) :=
  if (i <? length l)%nat then ret (list_set l i v)
  else raise (IndexError "index out of bounds").

(* ================================================================== *)
(** * numpy helpers used by the module *)
(* ================================================================== *)

Definition zeros (n : nat) : list npfloat := repeat (Fin 0) n.

Fixpoint map2 {A B C} (f : A -> B -> C) (l : list A) (l' : list B) : list C :=
  match l, l' with
  | a :: t, b :: t' => f a b :: map2 f t t'
  | _, _ => []
  end.

(** [np.linspace(start, stop, num)]: [num] evenly spaced samples, the last
    one set to [stop]. *)
Definition linspace (start stop : npfloat) (num : nat) : list npfloat :=
  match num with
  | O => []
  | 1%nat => [start]
  | _ =>
      let step := fdiv (fsub stop start) (Fin (INR (num - 1))) in
      map (fun i => if (i =? num - 1)%nat then stop
                    else fadd (fmul (Fin (INR i)) step) start)
          (seq 0 num)
  end.

(** One axis of [np.mgrid[start:stop:np.complex(0, num)]]. *)
Definition mgrid_axis (start stop : npfloat) (num : nat) : list npfloat :=
  let step := if (num =? 1)%nat then Fin 1
              else fdiv (fsub stop start) (Fin (INR (num - 1))) in
  map (fun i => fadd (fmul (Fin (INR i)) step) start) (seq 0 num).

Definition arr2 : Type := list (list npfloat).
Definition arr3 : Type := list (list (list npfloat)).

(** [X, Y = np.mgrid[...]]: [X[i][j] = ax[i]], [Y[i][j] = ay[j]]. *)
Definition mgrid2 (ax ay : list npfloat) : arr2 * arr2 :=
  (map (fun xi => map (fun _ => xi) ay) ax,
   map (fun _ => ay) ax).

Definition mgrid3 (ax ay az : list npfloat) : arr3 * arr3 * arr3 :=
  (map (fun xi => map (fun _ => map (fun _ => xi) az) ay) ax,
   map (fun _ => map (fun yj => map (fun _ => yj) az) ay) ax,
   map (fun _ => map (fun _ => az) ay) ax).

(** [a[:, i]] *)
Definition column (a : arr2) (i : nat) : result (list npfloat) :=
  fold_right (fun row acc => v <- getitem row i ;; t <- acc ;; ret (v :: t))
             (ret []) a.

(** [a[:, j, i]] *)
Definition column3 (a : arr3) (j i : nat) : result (list npfloat) :=
  fold_right (fun plane acc =>
                row <- getitem plane j ;; v <- getitem row i ;;
                t <- acc ;; ret (v :: t))
             (ret []) a.

(** [m[m < floor] = floor] on one entry *)
Definition floor_at (floor v : npfloat) : npfloat :=
  if flt v floor then floor else v.

(* ================================================================== *)
(** * The forward model [FWD] *)
(* ================================================================== *)

(** A source profile is a vectorised function of one, two or three
    coordinate arrays (as [gauss_1d_dipole], [large_source_2D],
    [small_source_2D] and [gauss_3d_dipole] are): it is applied entry by
    entry.  Calling it with the wrong number of arrays is a [TypeError]. *)
Inductive csd_profile : Type :=
| Profile1D (f : npfloat -> npfloat)
| Profile2D (f : npfloat -> npfloat -> npfloat)
| Profile3D (f : npfloat -> npfloat -> npfloat -> npfloat).

Definition arity_error : exn := TypeError "wrong number of arguments".

Definition call_profile1 (p : csd_profile) (x : list npfloat)
  : result (list npfloat) :=
  match p with
  | Profile1D f => ret (map f x)
  | _ => raise arity_error
  end.

Definition call_profile2 (p : csd_profile) (x y : arr2) : result arr2 :=
  match p with
  | Profile2D f => ret (map2 (map2 f) x y)
  | _ => raise arity_error
  end.

Definition map3 {A B C D} (f : A -> B -> C -> D)
           (l : list A) (l' : list B) (l'' : list C) : list D :=
  map2 (fun ab c => f (fst ab) (snd ab) c) (combine l l') l''.

Definition call_profile3 (p : csd_profile) (x y z : arr3) : result arr3 :=
  match p with
  | Profile3D f => ret (map3 (map3 (map3 f)) x y z)
  | _ => raise arity_error
  end.

(** The floor [0.0000001] put under the distances of the 2D and 3D
    integrands. *)
Definition dist_floor : npfloat := Fin (1 / 10000000).

Section Forward.

(** [scipy.integrate.simps(y, x)], the library's composite Simpson rule
    for samples [y] at the points [x]. *)
Variable simps : list npfloat -> list npfloat -> result npfloat.

Definition integrate_1D (x0 : npfloat) (csd_x csd : list npfloat)
           (h : npfloat) : result npfloat :=
  let m := map (fun cx =>
                  fsub (fsqrt (fadd (fsquare (fsub cx x0)) (fsquare h)))
                       (fabs (fsub cx x0))) csd_x in
  let y := map2 fmul csd m in
  I <- simps y csd_x ;;
  ret I.

Definition integrate_2D (x y : npfloat) (xlin ylin : list npfloat)
           (csd : arr2) (h : npfloat) (X Y : arr2) : result npfloat :=
  let Ny := length ylin in
  let m := map2 (map2 (fun Xv Yv =>
                         fsqrt (fadd (fsquare (fsub x Xv))
                                     (fsquare (fsub y Yv))))) X Y in
  let m := map (map (floor_at dist_floor)) m in
  let y := map2 (map2 (fun mv cv =>
                         fmul (farcsinh (fdiv (fmul (Fin 2) h) mv)) cv))
                m csd in
  I <- for_range Ny (zeros Ny)
         (fun i I => col <- column y i ;;
                     v <- simps col ylin ;;
                     setitem I i v) ;;
  F <- simps I xlin ;;
  ret F.

Definition integrate_3D (x y z : npfloat)
           (xlim ylim zlim : npfloat * npfloat) (csd : arr3)
           (xlin ylin zlin : list npfloat) (X Y Z : arr3) : result npfloat :=
  let Nz := length zlin in
  let Ny := length ylin in
  let m := map3 (map3 (map3 (fun Xv Yv Zv =>
                               fsqrt (fadd (fadd (fsquare (fsub x Xv))
                                                 (fsquare (fsub y Yv)))
                                           (fsquare (fsub z Zv))))))
                X Y Z in
  let m := map (map (map (floor_at dist_floor))) m in
  let z := map2 (map2 (map2 fdiv)) csd m in
  Iy <- for_range Ny (zeros Ny)
          (fun j Iy =>
             Iz <- for_range Nz (zeros Nz)
                     (fun i Iz => col <- column3 z j i ;;
                                  v <- simps col zlin ;;
                                  setitem Iz i v) ;;
             v <- simps Iz ylin ;;
             setitem Iy j v) ;;
  F <- simps Iy xlin ;;
  ret F.

(** Lines 180-184: the dimensionality read off the optional arrays. *)
Definition FWD_dim (ele_yy ele_zz : option (list npfloat)) : nat :=
  let dim := 1%nat in
  match ele_zz with
  | Some _ => 3%nat
  | None => match ele_yy with
            | Some _ => 2%nat
            | None => dim
            end
  end.

(** The three arms of the final [if dim == 1: ... elif dim == 2: ...
    elif dim == 3: ...] of [FWD]. *)
Definition FWD_arm1 (profile : csd_profile) (ele_xx : list npfloat)
           (xlims : npfloat * npfloat) (res : nat)
           (sigma h : npfloat) (pots : list npfloat)
  : result (list npfloat) :=
  let chrg_x := linspace (fst xlims) (snd xlims) res in
  csd <- call_profile1 profile chrg_x ;;
  pots <- for_range (length ele_xx) pots
            (fun ii pots =>
               x0 <- getitem ele_xx ii ;;
               v <- integrate_1D x0 chrg_x csd h ;;
               setitem pots ii v) ;;
  ret (map (fun p => fdiv p (fmul (Fin 2) sigma)) pots).

Definition FWD_arm2 (profile : csd_profile) (ele_xx : list npfloat)
           (ele_yy : option (list npfloat))
           (xlims ylims : npfloat * npfloat) (res : nat)
           (x y : list npfloat) (sigma h : npfloat) (pots : list npfloat)
  : result (list npfloat) :=
  let '(chrg_x, chrg_y) :=
    mgrid2 (mgrid_axis (fst xlims) (snd xlims) res)
           (mgrid_axis (fst ylims) (snd ylims) res) in
  csd <- call_profile2 profile chrg_x chrg_y ;;
  pots <- for_range (length ele_xx) pots
            (fun ii pots =>
               ex <- getitem ele_xx ii ;;
               ey <- getitem_opt ele_yy ii ;;
               v <- integrate_2D ex ey x y csd h chrg_x chrg_y ;;
               setitem pots ii v) ;;
  ret (map (fun p => fdiv p (fmul (fmul (Fin 2) (Fin PI)) sigma)) pots).

(** [a[k]] on an axis of [n] entries *)
Definition first_axis {A} (a : list A) : result A := getitem a 0.

Definition FWD_arm3 (profile : csd_profile) (ele_xx : list npfloat)
           (ele_yy ele_zz : option (list npfloat))
           (xlims ylims zlims : npfloat * npfloat) (res : nat)
           (sigma : npfloat) (pots : list npfloat)
  : result (list npfloat) :=
  let '(chrg_x, chrg_y, chrg_z) :=
    mgrid3 (mgrid_axis (fst xlims) (snd xlims) res)
           (mgrid_axis (fst ylims) (snd ylims) res)
           (mgrid_axis (fst zlims) (snd zlims) res) in
  csd <- call_profile3 profile chrg_x chrg_y chrg_z ;;
  (* the grids have shape (res, res, res): index 0 needs res > 0 *)
  xlin <- (if (res =? 0)%nat
           then raise (IndexError "index out of bounds")
           else column3 chrg_x 0 0) ;;
  ylin <- (plane <- first_axis chrg_y ;; column plane 0) ;;
  zlin <- (plane <- first_axis chrg_z ;; first_axis plane) ;;
  pots <- for_range (length ele_xx) pots
            (fun ii pots =>
               ex <- getitem ele_xx ii ;;
               ey <- getitem_opt ele_yy ii ;;
               ez <- getitem_opt ele_zz ii ;;
               v <- integrate_3D ex ey ez xlims ylims zlims csd
                      xlin ylin zlin chrg_x chrg_y chrg_z ;;
               setitem pots ii v) ;;
  ret (map (fun p => fdiv p (fmul (fmul (Fin 4) (Fin PI)) sigma)) pots).

Definition FWD (profile : csd_profile) (ele_xx : list npfloat)
           (ele_yy ele_zz : option (list npfloat))
           (xlims ylims zlims : npfloat * npfloat) (res : nat)
  : result (list npfloat) :=
  let dim := FWD_dim ele_yy ele_zz in
  let x := linspace (fst xlims) (snd xlims) res in
  let y := linspace (fst ylims) (snd ylims) res in
  let sigma := Fin 1 in
  let h := Fin 50 in
  let pots := zeros (length ele_xx) in
  if (dim =? 1)%nat then
    FWD_arm1 profile ele_xx xlims res sigma h pots
  else if (dim =? 2)%nat then
    FWD_arm2 profile ele_xx ele_yy xlims ylims res x y sigma h pots
  else if (dim =? 3)%nat then
    FWD_arm3 profile ele_xx ele_yy ele_zz xlims ylims zlims res sigma pots
  else ret pots.

End Forward.

(** The defaults of [FWD]'s keyword arguments. *)
Definition default_lims : npfloat * npfloat := (Fin 0, Fin 1).
Definition default_res : nat := 50.

(* ================================================================== *)
(** * Data of the dispatch layer [CSD] *)
(* ================================================================== *)

Inductive length_unit : Type := mm | um | cm | m.

Definition mm_per (u : length_unit) : R :=
  match u with
  | mm => 1
  | um => 1 / 1000
  | cm => 10
  | m => 1000
  end.

Inductive potential_unit : Type := mV | uV | V.

Definition mV_per (u : potential_unit) : R :=
  match u with
  | mV => 1
  | uV => 1 / 1000
  | V => 1000
  end.

(** An electrode coordinate as the caller hands it over: a quantity of
    length, or a bare sequence of numbers, which has no [rescale]. *)
Inductive coordinate : Type :=
| Quantity (magnitude : list npfloat) (units : length_unit)
| Bare (values : list npfloat).

(** A scalar with its unit, as [t_start] and [sampling_rate] are. *)
Record quantity : Type := { q_magnitude : npfloat; q_units : string }.

(** [neo.AnalogSignal]: the samples of one channel.  [channel_coordinate] is
    [recordingchannel.coordinate], [None] when the signal is attached to no
    channel or the channel has no coordinate. *)
Record AnalogSignal : Type := {
  magnitude : list npfloat;
  units : potential_unit;
  t_start : quantity;
  sampling_rate : quantity;
  channel_coordinate : option coordinate
}.

Inductive pyval : Type :=
| PyInt (z : Z)
| PyFloat (v : npfloat)
| PyStr (s : string)
| PyArray (a : list npfloat).

(** A [dict] with string keys, in insertion order. *)
Definition dict : Type := list (string * pyval).

Definition keys (d : dict) : list string := map fst d.

(** Truth value of a list or dict: non-empty. *)
Definition truthy {A} (l : list A) : bool :=
  match l with [] => false | _ => true end.

(** [a and b] on two lists: [a] when [a] is falsy, [b] otherwise. *)
Definition py_and {A} (a b : list A) : list A :=
  if truthy a then b else a.

(** [s in l] *)
Definition py_in (s : string) (l : list string) : bool :=
  existsb (String.eqb s) l.

(** An n-dimensional array, by its shape and its entries; a transposition
    is a view, it only renames the indices. *)
Record ndarray : Type := {
  shape : list nat;
  item : list nat -> npfloat
}.

Definition ndim (a : ndarray) : nat := length (shape a).

(** [a.transpose(axes)] *)
Fixpoint index_from (k : nat) (axes : list nat) (pos : nat) : nat :=
  match axes with
  | [] => pos
  | a :: t => if (a =? k)%nat then pos else index_from k t (S pos)
  end.

(** [axes.index(k)] *)
Definition index_of (k : nat) (axes : list nat) : nat := index_from k axes 0.

Definition transpose (a : ndarray) (axes : list nat) : ndarray :=
  {| shape := map (fun ax => nth ax (shape a) 0%nat) axes;
     item := fun idx =>
               item a (map (fun k => nth (index_of k axes) idx 0%nat)
                           (seq 0 (ndim a))) |}.

Definition axis_error : exn := IndexError "axis is out of bounds".

(** [np.rollaxis(a, axis, start)] *)
Definition rollaxis (a : ndarray) (axis start : Z) : result ndarray :=
  let n := Z.of_nat (ndim a) in
  axis <- (if ((- n <=? axis) && (axis <? n))%Z
           then ret (if (axis <? 0)%Z then (axis + n)%Z else axis)
           else raise axis_error) ;;
  let start := if (start <? 0)%Z then (start + n)%Z else start in
  if negb ((0 <=? start) && (start <? n + 1))%Z then raise axis_error
  else
    let start := if (axis <? start)%Z then (start - 1)%Z else start in
    if (axis =? start)%Z then ret a
    else
      let axes := seq 0 (ndim a) in
      let axes := remove Nat.eq_dec (Z.to_nat axis) axes in
      let axes := firstn (Z.to_nat start) axes
                  ++ Z.to_nat axis :: skipn (Z.to_nat start) axes in
      ret (transpose a axes).

(** [neo.AnalogSignalArray] with its annotations. *)
Record AnalogSignalArray : Type := {
  signal : ndarray;
  signal_units : string * nat;   (* uA / mm ** dim *)
  out_t_start : quantity;
  out_sampling_rate : quantity;
  annotations : list (string * ndarray)
}.

Definition annotate (out : AnalogSignalArray) (kv : list (string * ndarray))
  : AnalogSignalArray :=
  {| signal := signal out;
     signal_units := signal_units out;
     out_t_start := out_t_start out;
     out_sampling_rate := out_sampling_rate out;
     annotations := annotations out ++ kv |}.

Definition available_1d : list string := ["KCSD1D"].
Definition available_2d : list string := ["KCSD2D"; "MoIKCSD"].
Definition available_3d : list string := ["KCSD3D"].
Definition all_kernel_methods : list string :=
  ["KCSD1D"; "KCSD2D"; "KCSD3D"; "MoIKCSD"].

(** [c.rescale(pq.mm)] *)
Definition rescale_mm (c : coordinate) : result (list npfloat) :=
  match c with
  | Quantity xs u => ret (map (fmul (Fin (mm_per u))) xs)
  | Bare _ => raise (AttributeError "object has no attribute 'rescale'")
  end.

(** [s.rescale(pq.mV).magnitude] *)
Definition rescale_mV (s : AnalogSignal) : list npfloat :=
  map (fmul (Fin (mV_per (units s)))) (magnitude s).

(** [ii.recordingchannel.coordinate.rescale(pq.mm)] *)
Definition channel_coordinate_mm (s : AnalogSignal) : result (list npfloat) :=
  match channel_coordinate s with
  | Some c => rescale_mm c
  | None => raise (AttributeError "'NoneType' object has no attribute")
  end.

(** [try: r except AttributeError: raise e] *)
Definition except_AttributeError {A} (r : result A) (e : exn) : result A :=
  match r with
  | inl (AttributeError _) => raise e
  | other => other
  end.

(** [for a in l: acc.append(f a)] *)
Fixpoint for_each {A B} (f : A -> result B) (l : list A) : result (list B) :=
  match l with
  | [] => ret []
  | a :: t => b <- f a ;; bs <- for_each f t ;; ret (b :: bs)
  end.

(** [row[:] = v] for a row of [T] entries: [v] has [T] entries, or one
    entry that is repeated. *)
Definition broadcast_row (T : nat) (v : list npfloat)
  : result (list npfloat) :=
  if (length v =? T)%nat then ret v
  else match v with
       | [a] => ret (repeat a T)
       | _ => raise (ValueError "could not broadcast input array" [])
       end.

(* ================================================================== *)
(** * The dispatch layer [CSD] *)
(* ================================================================== *)

(** The calls [CSD] makes into the kernel estimator, in order. *)
Inductive event : Type :=
| Constructed (method : string) (coords input_array : list (list npfloat))
              (params : dict)
| CrossValidated (cv_params : dict)
| ValuesRead.

(** A computation that may raise and that records its estimator calls. *)
Definition traced (A : Type) : Type := (list event * result A)%type.

Definition tret {A} (a : A) : traced A := ([], ret a).
Definition lift {A} (r : result A) : traced A := ([], r).
Definition call {A} (ev : event) (r : result A) : traced A := ([ev], r).
Definition tbind {A B} (t : traced A) (f : A -> traced B) : traced B :=
  match t with
  | (log, inl e) => (log, inl e)
  | (log, inr a) => let (log', r) := f a in (log ++ log', r)
  end.

Notation "x <~ t ;; k" := (tbind t (fun x => k))
  (at level 61, t at next level, right associativity).

Definition check (rejects : bool) (e : exn) : result unit :=
  if rejects then raise e else ret tt.

Section Dispatch.

(** The kernel estimators of [elephant.current_source_density.KCSD]:
    objects built by [getattr(KCSD, method)(coords, input_array, **params)]
    with the methods [cross_validate] and [values] and the attributes
    [estm_x], [estm_y], [estm_z]. *)
Variable kcsd : Type.
Variable kernel_method :
  string -> list (list npfloat) -> list (list npfloat) -> dict -> result kcsd.
Variable cross_validate : kcsd -> dict -> result kcsd.
Variable values : kcsd -> result ndarray.
Variable estm_x estm_y estm_z : kcsd -> result ndarray.

(** Lines 63-74: the coordinates in millimetres. *)
Definition scaled_coords (analog_signals : list AnalogSignal)
           (coords : option (list coordinate))
  : result (list (list npfloat)) :=
  match coords with
  | None => for_each channel_coordinate_mm analog_signals
  | Some coords =>
      for_each (fun coord =>
                  except_AttributeError (rescale_mm coord)
                    (AttributeError
                       "No units given for electrode spatial coordinates"))
               coords
  end.

(** Lines 75-88: the checks on method, count and dimensionality; the
    result is [dim] and the method name. *)
Definition validate (analog_signals : list AnalogSignal)
           (coords : list (list npfloat)) (method : option string)
  : result (nat * string) :=
  method <- match method with
            | None => raise (ValueError
                               "Must specify a method of CSD implementation"
                               [])
            | Some name => ret name
            end ;;
  _ <- check (negb (length coords =? length analog_signals)%nat)
         (ValueError "Number of signals and coords is not same" []) ;;
  _ <- for_each (fun ii =>
                   check (3 <? length ii)%nat
                     (ValueError "Invalid number of coordinate positions" []))
         coords ;;
  c0 <- getitem coords 0 ;;
  let dim := length c0 in
  _ <- check ((dim =? 1)%nat && negb (py_in method available_1d))
         (ValueError "Invalid method, Available options are:" available_1d) ;;
  _ <- check ((dim =? 2)%nat && negb (py_in method available_2d))
         (ValueError "Invalid method, Available options are:" available_2d) ;;
  _ <- check ((dim =? 3)%nat && negb (py_in method available_3d))
         (ValueError "Invalid method, Available options are:" available_3d) ;;
  ret (dim, method).

(** Lines 90-92: the channel by time matrix in millivolts. *)
Definition input_matrix (analog_signals : list AnalogSignal)
  : result (list (list npfloat)) :=
  first <- getitem analog_signals 0 ;;
  let T := length (magnitude first) in
  let input_array := repeat (zeros T) (length analog_signals) in
  for_range (length analog_signals) input_array
    (fun ii input_array =>
       jj <- getitem analog_signals ii ;;
       row <- broadcast_row T (rescale_mV jj) ;;
       setitem input_array ii row).

(** Line 97: [len(cv_params.keys() and ['Rs', 'lambdas']) != 2] *)
Definition cv_params_rejected (cv_params : dict) : bool :=
  negb (length (py_and (keys cv_params) ["Rs"; "lambdas"]) =? 2)%nat.

(** Lines 93-110: the estimator is built and queried, its estimate is
    rolled and packed. *)
Definition estimate (analog_signals : list AnalogSignal)
           (coords : list (list npfloat)) (dim : nat) (method : string)
           (input_array : list (list npfloat)) (params cv_params : dict)
  : traced AnalogSignalArray :=
  if py_in method all_kernel_methods then
    k <~ call (Constructed method coords input_array params)
           (kernel_method method coords input_array params) ;;
    k <~ (if py_in method all_kernel_methods && truthy cv_params then
            _ <~ lift (check (cv_params_rejected cv_params)
                         (TypeError "Invalid cv_params argument passed")) ;;
            call (CrossValidated cv_params) (cross_validate k cv_params)
          else tret k) ;;
    estm_csd <~ call ValuesRead (values k) ;;
    estm_csd <~ lift (rollaxis estm_csd (-1) 0) ;;
    first <~ lift (getitem analog_signals 0) ;;
    let output := {| signal := estm_csd;
                     signal_units := ("uA/mm**", dim);
                     out_t_start := t_start first;
                     out_sampling_rate := sampling_rate first;
                     annotations := [] |} in
    if (dim =? 1)%nat then
      x <~ lift (estm_x k) ;;
      tret (annotate output [("x_coords", x)])
    else if (dim =? 2)%nat then
      x <~ lift (estm_x k) ;;
      y <~ lift (estm_y k) ;;
      tret (annotate output [("x_coords", x); ("y_coords", y)])
    else if (dim =? 3)%nat then
      x <~ lift (estm_x k) ;;
      y <~ lift (estm_y k) ;;
      z <~ lift (estm_z k) ;;
      tret (annotate output
              [("x_coords", x); ("y_coords", y); ("z_coords", z)])
    else tret output
  else
    lift (raise (UnboundLocalError
                   "local variable 'output' referenced before assignment")).

Definition CSD (analog_signals : list AnalogSignal)
           (coords : option (list coordinate)) (method : option string)
           (params cv_params : dict) : traced AnalogSignalArray :=
  coords <~ lift (scaled_coords analog_signals coords) ;;
  dm <~ lift (validate analog_signals coords method) ;;
  let (dim, method) := dm in
  input_array <~ lift (input_matrix analog_signals) ;;
  estimate analog_signals coords dim method input_array params cv_params.

End Dispatch.

Arguments CSD {kcsd}.
Arguments estimate {kcsd}.

(** The kernel methods [CSD] runs for a dimensionality: the allowed list
    for 1, 2 and 3 components; a coordinate without components meets no
    method check. *)
Definition available_for (dim : nat) : list string :=
  match dim with
  | 1%nat => available_1d
  | 2%nat => available_2d
  | 3%nat => available_3d
  | _ => all_kernel_methods
  end.

(** The annotation keys [CSD] writes for a dimensionality. *)
Definition coordinate_axes (dim : nat) : list string :=
  match dim with
  | 1%nat => ["x_coords"]
  | 2%nat => ["x_coords"; "y_coords"]
  | 3%nat => ["x_coords"; "y_coords"; "z_coords"]
  | _ => []
  end.

Definition has_units (c : coordinate) : Prop :=
  match c with Quantity _ _ => True | Bare _ => False end.

(** The potential at one electrode of a 1D set-up as the specification
    words it: the Simpson integral over the charge grid of
    [csd(x') * (sqrt((x' - x0)^2 + h^2) - |x' - x0|)], scaled by
    [1 / (2 sigma)]. *)
Definition potential_1D_spec
           (simps : list npfloat -> list npfloat -> result npfloat)
           (csd : npfloat -> npfloat) (grid : list npfloat)
           (sigma h x0 : npfloat) : result npfloat :=
  I <- simps (map (fun x' =>
                     fmul (csd x')
                          (fsub (fsqrt (fadd (fsquare (fsub x' x0))
                                             (fsquare h)))
                                (fabs (fsub x' x0)))) grid) grid ;;
  ret (fmul (fdiv (Fin 1) (fmul (Fin 2) sigma)) I).

(** The arrays met in [FWD] are functions of the grid coordinates,
    tabulated over the axes. *)
Definition grid2 {A} (h : npfloat -> npfloat -> A)
           (ax ay : list npfloat) : list (list A) :=
  map (fun xi => map (fun yj => h xi yj) ay) ax.

Definition grid3 {A} (h : npfloat -> npfloat -> npfloat -> A)
           (ax ay az : list npfloat) : list (list (list A)) :=
  map (fun xi => grid2 (h xi) ay az) ax.

(** The quadrature over the points [xs] answers a finite value on finite
    samples. *)
Definition finite_quadrature_on
           (simps : list npfloat -> list npfloat -> result npfloat)
           (xs : list npfloat) : Prop :=
  forall ys, length ys = length xs -> Forall finite ys ->
             exists v, simps ys xs = inr v /\ finite v.

Definition finite_lims (lims : npfloat * npfloat) : Prop :=
  finite (fst lims) /\ finite (snd lims).

(* ================================================================== *)
(** * The electrode grid generator *)
(* ================================================================== *)

(** What [generate_electrodes] returns: one, two or three flattened
    coordinate arrays. *)
Inductive electrode_arrays : Type :=
| Ele1 (ele_x : list npfloat)
| Ele2 (ele_x ele_y : list npfloat)
| Ele3 (ele_x ele_y ele_z : list npfloat).

(** [a.flatten()] of a 2D and of a 3D array, in row-major order. *)
Definition flatten2 {A} (a : list (list A)) : list A := concat a.
Definition flatten3 {A} (a : list (list (list A))) : list A :=
  concat (map (@concat A) a).

(** [generate_electrodes(dim, xlims, ylims, zlims, res)]; [None] is
    Python's [None], returned when no branch is taken. *)
Definition generate_electrodes (dim : nat)
           (xlims ylims zlims : npfloat * npfloat) (res : nat)
  : option electrode_arrays :=
  if (dim =? 1)%nat then
    let ele_x := mgrid_axis (fst xlims) (snd xlims) res in
    Some (Ele1 ele_x)
  else if (dim =? 2)%nat then
    let '(ele_x, ele_y) :=
      mgrid2 (mgrid_axis (fst xlims) (snd xlims) res)
             (mgrid_axis (fst ylims) (snd ylims) res) in
    Some (Ele2 (flatten2 ele_x) (flatten2 ele_y))
  else if (dim =? 3)%nat then
    let '(ele_x, ele_y, ele_z) :=
      mgrid3 (mgrid_axis (fst xlims) (snd xlims) res)
             (mgrid_axis (fst ylims) (snd ylims) res)
             (mgrid_axis (fst zlims) (snd zlims) res) in
    Some (Ele3 (flatten3 ele_x) (flatten3 ele_y) (flatten3 ele_z))
  else None.

(* ================================================================== *)
(** * The test source profiles *)
(* ================================================================== *)

(** [numpy.exp] *)
Definition fexp (x : npfloat) : npfloat :=
  match x with
  | Fin r => Fin (exp r)
  | Inf false => Inf false
  | Inf true => Fin 0
  | NaN => NaN
  end.

(** [(2*np.pi*0.3)**-0.5] *)
Definition norm_1d : R := Rpower (2 * PI * (3 / 10)) (- (1 / 2)).

Definition gauss_1d_dipole (x : npfloat) : npfloat :=
  let src := fmul (fmul (Fin (1 / 2))
                        (fexp (fdiv (fneg (fsquare (fsub x (Fin (7 / 10)))))
                                    (Fin (2 * (3 / 10))))))
                  (Fin norm_1d) in
  let snk := fmul (fmul (Fin (- (1 / 2)))
                        (fexp (fdiv (fneg (fsquare (fsub x (Fin (3 / 10)))))
                                    (Fin (2 * (3 / 10))))))
                  (Fin norm_1d) in
  let f := fadd src snk in
  f.

(** One term of [large_source_2D]:
    [c*exp((k*(x-x0)**2 - (y-y0)**2)/w) * exp(-(-zz)**2/zs) / exp(-(zz)**2/zs)]
    with [k] one of -1, -2, -3, -4. *)
Definition large_source_term (c k x0 y0 w zz zs : R) (x y : npfloat)
  : npfloat :=
  fdiv (fmul (fmul (Fin c)
                   (fexp (fdiv (fsub (fmul (Fin k) (fsquare (fsub x (Fin x0))))
                                     (fsquare (fsub y (Fin y0))))
                               (Fin w))))
             (Fin (exp (- ((- zz) * (- zz)) / zs))))
       (Fin (exp (- (zz * zz) / zs))).

Definition large_source_2D (x y : npfloat) : npfloat :=
  let zz0 := (4 / 10)%R in let zz1 := (- (3 / 10))%R in
  let zz2 := (- (1 / 10))%R in let zz3 := (6 / 10)%R in
  let zs0 := (2 / 10)%R in let zs1 := (3 / 10)%R in
  let zs2 := (4 / 10)%R in let zs3 := (2 / 10)%R in
  let f1 := large_source_term (5965 / 10000) (-1) (1350 / 10000)
                              (8628 / 10000) (4464 / 10000) zz0 zs0 x y in
  let f2 := large_source_term (- (9269 / 10000)) (-2) (1848 / 10000)
                              (897 / 10000) (2046 / 10000) zz1 zs1 x y in
  let f3 := large_source_term (5910 / 10000) (-3) (13189 / 10000)
                              (3522 / 10000) (2129 / 10000) zz2 zs2 x y in
  let f4 := large_source_term (- (1963 / 10000)) (-4) (13386 / 10000)
                              (5297 / 10000) (2507 / 10000) zz3 zs3 x y in
  let f := fadd (fadd (fadd f1 f2) f3) f4 in
  f.




Definition gauss_3d_dipole (x y z : npfloat) : npfloat :=
  let x0 := Fin (3 / 10) in let y0 := Fin (7 / 10) in
  let z0 := Fin (3 / 10) in
  let x1 := Fin (6 / 10) in let y1 := Fin (5 / 10) in
  let z1 := Fin (7 / 10) in
  let sig_2 := (23 / 1000)%R in
  let A := (/ (2 * PI * sig_2))%R in
  let f1 := fmul (Fin A)
                 (fexp (fdiv (fsub (fsub (fneg (fsquare (fsub x x0)))
                                         (fsquare (fsub y y0)))
                                   (fsquare (fsub z z0)))
                             (Fin (2 * sig_2)))) in
  let f2 := fmul (Fin (-1 * A))
                 (fexp (fdiv (fsub (fsub (fneg (fsquare (fsub x x1)))
                                         (fsquare (fsub y y1)))
                                   (fsquare (fsub z z1)))
                             (Fin (2 * sig_2)))) in
  let f := fadd f1 f2 in
  f.

(** The number of coordinate arrays a profile takes. *)
Definition profile_arity (p : csd_profile) : nat :=
  match p with
  | Profile1D _ => 1%nat
  | Profile2D _ => 2%nat
  | Profile3D _ => 3%nat
  end.

(** The 2D potential at the electrode [(ex, ey)] written without index
    loops: for every axis point [yi] the samples along the first axis are
    integrated against the abscissae [ylin], and the resulting values are
    integrated against [xlin]. *)
Definition potential_2D_nested
           (simps : list npfloat -> list npfloat -> result npfloat)
           (f : npfloat -> npfloat -> npfloat)
           (ax ay xlin ylin : list npfloat) (ex ey : npfloat)
  : result npfloat :=
  I <- for_each
         (fun yi =>
            simps (map (fun xi =>
                          fmul (farcsinh
                                  (fdiv (fmul (Fin 2) (Fin 50))
                                        (floor_at dist_floor
                                           (fsqrt (fadd (fsquare (fsub ex xi))
                                                        (fsquare (fsub ey yi)))))))
                               (f xi yi)) ax) ylin) ay ;;
  F <- simps I xlin ;;
  ret (fdiv F (Fin (2 * PI * 1))).

(** The 3D potential at the electrode [(ex, ey, ez)] in the same style. *)
Definition potential_3D_nested
           (simps : list npfloat -> list npfloat -> result npfloat)
           (f : npfloat -> npfloat -> npfloat -> npfloat)
           (ax ay az : list npfloat) (ex ey ez : npfloat)
  : result npfloat :=
  Iy <- for_each
          (fun yj =>
             Iz <- for_each
                     (fun zi =>
                        simps (map (fun xi =>
                                      fdiv (f xi yj zi)
                                           (floor_at dist_floor
                                              (fsqrt
                                                 (fadd
                                                    (fadd
                                                       (fsquare (fsub ex xi))
                                                       (fsquare (fsub ey yj)))
                                                    (fsquare (fsub ez zi))))))
                                   ax) az) az ;;
             simps Iz ay) ay ;;
  F <- simps Iy ax ;;
  ret (fdiv F (Fin (4 * PI * 1))).

(* ================================================================== *)
(** * Concrete inputs *)
(* ================================================================== *)

(** A stand-in for the estimator classes, used to run [CSD] on concrete
    inputs: it accepts every construction and cross-validation and
    estimates zero on a grid of three points per axis, one sample in time. *)
Definition stub_kernel_method (name : string)
           (coords input_array : list (list npfloat)) (params : dict)
  : result nat :=
  ret (match coords with [] => 0%nat | c0 :: _ => length c0 end).

Definition stub_cross_validate (k : nat) (cv_params : dict) : result nat :=
  ret k.

Definition stub_values (k : nat) : result ndarray :=
  ret {| shape := repeat 3%nat k ++ [1%nat]; item := fun _ => Fin 0 |}.

Definition stub_axis (k : nat) : result ndarray :=
  ret {| shape := repeat 3%nat k; item := fun _ => Fin 0 |}.

Definition stub_CSD :=
  CSD stub_kernel_method stub_cross_validate stub_values
      stub_axis stub_axis stub_axis.

(** A stand-in for the quadrature, used to run [FWD] on concrete inputs:
    Simpson's rule for evenly spaced samples,
    [dx / 3 * sum (y[2k] + 4 y[2k+1] + y[2k+2])]. *)
Fixpoint simpson_sum (ys : list npfloat) : npfloat :=
  match ys with
  | y0 :: y1 :: ((y2 :: _) as rest) =>
      fadd (fadd y0 (fadd (fmul (Fin 4) y1) y2)) (simpson_sum rest)
  | _ => Fin 0
  end.

Definition simpson_uniform (ys xs : list npfloat) : result npfloat :=
  match xs with
  | x0 :: x1 :: _ => ret (fmul (fdiv (fsub x1 x0) (Fin 3)) (simpson_sum ys))
  | _ => ret (Fin 0)
  end.

Definition seconds (v : R) : quantity :=
  {| q_magnitude := Fin v; q_units := "s" |}.
Definition hertz (v : R) : quantity :=
  {| q_magnitude := Fin v; q_units := "Hz" |}.

(** One sample of [v] mV on a channel at [coordinate]. *)
Definition one_sample (v : R) (coordinate : option coordinate)
  : AnalogSignal :=
  {| magnitude := [Fin v]; units := mV;
     t_start := seconds 0; sampling_rate := hertz 1000;
     channel_coordinate := coordinate |}.

(* ================================================================== *)
(** * Properties of the validation order *)
(* ================================================================== *)

Definition no_units_error : exn :=
  AttributeError "No units given for electrode spatial coordinates".

Lemma scaled_coords_bare (signals : list AnalogSignal) (cs : list coordinate) :
  Exists (fun c => ~ has_units c) cs ->
  scaled_coords signals (Some cs) = inl no_units_error.
Proof.
  unfold scaled_coords.
  induction cs as [|c cs IH]; intros Hex.
  - inversion Hex.
  - destruct c as [xs u|vs]; simpl.
    + inversion Hex as [? ? Hc|? ? Hrest]; subst.
      * exfalso; apply Hc; exact I.
      * rewrite (IH Hrest). reflexivity.
    + reflexivity.
Qed.

Lemma scaled_coords_units (signals : list AnalogSignal) (cs : list coordinate) :
  Forall has_units cs ->
  exists scaled, scaled_coords signals (Some cs) = inr scaled
                 /\ length scaled = length cs.
Proof.
  unfold scaled_coords.
  induction cs as [|c cs IH]; intros Hall.
  - exists []. split; reflexivity.
  - inversion Hall as [|? ? Hc Hrest]; subst.
    destruct (IH Hrest) as [scaled [Heq Hlen]].
    destruct c as [xs u|vs]; [|contradiction].
    simpl. rewrite Heq. simpl.
    eexists. split; [reflexivity|]. simpl. now rewrite Hlen.
Qed.

Lemma scaled_coords_length (signals : list AnalogSignal)
      (coords : option (list coordinate)) (scaled : list (list npfloat)) :
  scaled_coords signals coords = inr scaled ->
  length scaled = match coords with
                  | Some cs => length cs
                  | None => length signals
                  end.
Proof.
  unfold scaled_coords. destruct coords as [cs|].
  - revert scaled. induction cs as [|c cs IH]; intros scaled H.
    + inversion H. reflexivity.
    + simpl in H.
      destruct (except_AttributeError (rescale_mm c) _) as [e|v]; [discriminate|].
      simpl in H.
      destruct (for_each _ cs) as [e|vs]; [discriminate|].
      inversion H; subst. simpl. f_equal. now apply IH.
  - revert scaled. induction signals as [|s ss IH]; intros scaled H.
    + inversion H. reflexivity.
    + simpl in H.
      destruct (channel_coordinate_mm s) as [e|v]; [discriminate|].
      simpl in H.
      destruct (for_each _ ss) as [e|vs]; [discriminate|].
      inversion H; subst. simpl. f_equal. now apply IH.
Qed.

Lemma check_dimensions_ok (coords : list (list npfloat)) :
  Forall (fun c => (length c <= 3)%nat) coords ->
  exists us,
    for_each (fun ii : list npfloat =>
                check (3 <? length ii)%nat
                  (ValueError "Invalid number of coordinate positions" []))
             coords = inr us.
Proof.
  induction coords as [|c cs IH]; intros Hall.
  - eexists; reflexivity.
  - inversion Hall as [|? ? Hc Hrest]; subst.
    destruct (IH Hrest) as [us Hus].
    simpl. unfold check at 1.
    destruct (Nat.ltb_spec 3 (length c)); [lia|].
    simpl. rewrite Hus. eexists; reflexivity.
Qed.

Lemma check_dimensions_result (coords : list (list npfloat)) :
  (exists us,
    for_each (fun ii : list npfloat =>
                check (3 <? length ii)%nat
                  (ValueError "Invalid number of coordinate positions" []))
             coords = inr us)
  \/ for_each (fun ii : list npfloat =>
                check (3 <? length ii)%nat
                  (ValueError "Invalid number of coordinate positions" []))
             coords
     = inl (ValueError "Invalid number of coordinate positions" []).
Proof.
  induction coords as [|c cs IH].
  - left; eexists; reflexivity.
  - simpl. unfold check at 1 3.
    destruct (3 <? length c)%nat; simpl.
    + right; reflexivity.
    + destruct IH as [[us Hus]|Herr]; rewrite ?Hus, ?Herr; simpl.
      * left; eexists; reflexivity.
      * right; reflexivity.
Qed.

(** What [validate] answers once a method is given and the counts agree. *)
Lemma validate_passes (signals : list AnalogSignal)
      (c0 : list npfloat) (rest : list (list npfloat)) (name : string) :
  length (c0 :: rest) = length signals ->
  Forall (fun c => (length c <= 3)%nat) (c0 :: rest) ->
  py_in name (available_for (length c0)) = true ->
  validate signals (c0 :: rest) (Some name) = inr (length c0, name).
Proof.
  intros Hlen Hdims Hmeth.
  destruct (check_dimensions_ok _ Hdims) as [us Hus].
  unfold validate. cbv beta iota delta [bind ret].
  rewrite Hlen, Nat.eqb_refl, Hus.
  cbv beta iota delta [negb check ret getitem nth_error].
  inversion Hdims as [|? ? Hc0 _]; subst.
  destruct (length c0) as [|[|[|[|n]]]] eqn:Hd; try lia;
    unfold available_for in Hmeth; cbn [Nat.eqb andb];
    rewrite ?Hmeth; reflexivity.
Qed.

(** A method outside the allowed set of the first electrode's
    dimensionality is answered by a [ValueError]. *)
Lemma validate_rejects (signals : list AnalogSignal)
      (c0 : list npfloat) (rest : list (list npfloat)) (method : option string) :
  (1 <= length c0 <= 3)%nat ->
  match method with
  | Some name => py_in name (available_for (length c0)) = false
  | None => True
  end ->
  exists msg opts,
    validate signals (c0 :: rest) method = inl (ValueError msg opts).
Proof.
  intros Hd Hmeth.
  unfold validate. destruct method as [name|]; [|do 2 eexists; reflexivity].
  cbv beta iota delta [bind ret].
  destruct (check_dimensions_result (c0 :: rest)) as [[us Hus]|Herr].
  2:{ rewrite Herr.
      destruct (length (c0 :: rest) =? length signals)%nat;
        do 2 eexists; reflexivity. }
  rewrite Hus.
  destruct (length (c0 :: rest) =? length signals)%nat;
    [|do 2 eexists; reflexivity].
  cbv beta iota delta [negb check getitem nth_error ret].
  destruct (length c0) as [|[|[|[|n]]]] eqn:Hd'; try lia;
    unfold available_for in Hmeth; cbn [Nat.eqb andb]; rewrite Hmeth;
    do 2 eexists; reflexivity.
Qed.

Lemma check_dimensions_inv (coords : list (list npfloat)) (us : list unit) :
  for_each (fun ii : list npfloat =>
              check (3 <? length ii)%nat
                (ValueError "Invalid number of coordinate positions" []))
           coords = inr us ->
  Forall (fun c => (length c <= 3)%nat) coords.
Proof.
  revert us. induction coords as [|c cs IH]; intros us H; [constructor|].
  simpl in H. unfold check at 1 in H.
  destruct (Nat.ltb_spec 3 (length c)) as [|Hle]; [discriminate|].
  simpl in H.
  destruct (for_each _ cs) as [e|us'] eqn:Hrest; [discriminate|].
  constructor; [exact Hle|]. eapply IH. reflexivity.
Qed.

(** What [validate] has established when it lets a call through. *)
Lemma validate_success (signals : list AnalogSignal)
      (cs : list (list npfloat)) (method : option string)
      (dim : nat) (name : string) :
  validate signals cs method = inr (dim, name) ->
  exists c0 rest,
    cs = c0 :: rest
    /\ dim = length c0
    /\ Forall (fun c => (length c <= 3)%nat) cs
    /\ method = Some name
    /\ length cs = length signals.
Proof.
  unfold validate. destruct method as [name'|]; [|discriminate].
  cbv beta iota delta [bind ret].
  destruct (check_dimensions_result cs) as [[us Hus]|Herr].
  2:{ rewrite Herr. destruct (length cs =? length signals)%nat; discriminate. }
  rewrite Hus.
  destruct (Nat.eqb_spec (length cs) (length signals)) as [Hlen|_];
    [|discriminate].
  cbv beta iota delta [negb check ret].
  destruct cs as [|c0 rest]; [discriminate|].
  cbv beta iota delta [getitem nth_error ret].
  intros H. exists c0, rest.
  assert (Hres : dim = length c0 /\ name' = name).
  { repeat match type of H with
           | context [if ?b then _ else _] => destruct b; try discriminate
           end.
    injection H as -> ->. now split. }
  destruct Hres as [-> ->].
  repeat split; try reflexivity; try assumption.
  eapply check_dimensions_inv; eassumption.
Qed.

Lemma py_in_true (s : string) (l : list string) :
  py_in s l = true <-> In s l.
Proof.
  unfold py_in. rewrite existsb_exists. split.
  - intros [x [Hin Heq]]. apply String.eqb_eq in Heq. now subst.
  - intros Hin. exists s. split; [assumption|apply String.eqb_refl].
Qed.

Lemma available_is_kernel_method (dim : nat) (name : string) :
  py_in name (available_for dim) = true ->
  py_in name all_kernel_methods = true.
Proof.
  rewrite !py_in_true.
  destruct dim as [|[|[|[|n]]]]; simpl; intuition.
Qed.

(* ================================================================== *)
(** * Rolling the last axis to the front *)
(* ================================================================== *)

Lemma remove_seq_last (n : nat) :
  remove Nat.eq_dec n (seq 0 (S n)) = seq 0 n.
Proof.
  rewrite seq_S, remove_app. simpl.
  destruct (Nat.eq_dec n n) as [_|Hne]; [|contradiction].
  rewrite app_nil_r. apply notin_remove.
  rewrite in_seq. lia.
Qed.

Lemma index_from_seq (k s n pos : nat) :
  (s <= k < s + n)%nat ->
  index_from k (seq s n) pos = (pos + (k - s))%nat.
Proof.
  revert s pos. induction n as [|n IH]; intros s pos Hk; [lia|].
  simpl. destruct (Nat.eqb_spec s k) as [->|Hne].
  - lia.
  - rewrite IH by lia. lia.
Qed.

Lemma map_nth_seq {A} (l : list A) (d : A) (n : nat) :
  (n <= length l)%nat ->
  map (fun i => nth i l d) (seq 0 n) = firstn n l.
Proof.
  revert l. induction n as [|n IH]; intros l Hn; [reflexivity|].
  destruct l as [|a l]; [simpl in Hn; lia|].
  simpl. f_equal. rewrite <- seq_shift, map_map.
  apply IH. simpl in Hn. lia.
Qed.

Lemma last_as_nth {A} (l : list A) (d : A) :
  last l d = nth (length l - 1) l d.
Proof.
  induction l as [|a l IH]; [reflexivity|].
  destruct l as [|b l]; [reflexivity|].
  change (last (a :: b :: l) d) with (last (b :: l) d).
  rewrite IH. simpl. now rewrite Nat.sub_0_r.
Qed.

(** [np.rollaxis(a, -1, 0)] needs at least one axis; it then puts the last
    axis first and leaves the others in their order. *)
Lemma rollaxis_last_to_front (a r : ndarray) :
  rollaxis a (-1) 0 = inr r ->
  (1 <= ndim a)%nat
  /\ shape r = last (shape a) 0%nat :: removelast (shape a)
  /\ forall t idx, length idx = (ndim a - 1)%nat ->
                   item r (t :: idx) = item a (idx ++ [t]).
Proof.
  unfold rollaxis, ndim.
  destruct (shape a) as [|s0 sh] eqn:Hshape.
  - simpl. discriminate.
  - set (n := length sh).
    assert (Hn : Z.of_nat (length (s0 :: sh)) = (Z.of_nat n + 1)%Z).
    { simpl length. fold n. lia. }
    rewrite Hn.
    replace ((- (Z.of_nat n + 1) <=? -1)%Z) with true
      by (symmetry; apply Z.leb_le; lia).
    replace ((-1 <? Z.of_nat n + 1)%Z) with true
      by (symmetry; apply Z.ltb_lt; lia).
    cbv beta iota delta [bind ret andb].
    replace ((-1 <? 0)%Z) with true by reflexivity.
    replace ((0 <? 0)%Z) with false by reflexivity.
    replace ((0 <=? 0)%Z) with true by reflexivity.
    replace ((0 <? Z.of_nat n + 1 + 1)%Z) with true
      by (symmetry; apply Z.ltb_lt; lia).
    cbv beta iota delta [negb andb].
    replace ((-1 + (Z.of_nat n + 1) <? 0)%Z) with false
      by (symmetry; apply Z.ltb_ge; lia).
    destruct (Z.eqb_spec (-1 + (Z.of_nat n + 1)) 0) as [Hz|Hnz].
    + intros [= <-].
      assert (Hsh : sh = []) by (destruct sh; [reflexivity|simpl in n; lia]).
      subst sh. rewrite Hshape. simpl. repeat split; [lia|].
      intros t idx Hidx. destruct idx; [reflexivity|discriminate].
    + replace (Z.to_nat (-1 + (Z.of_nat n + 1))) with n by lia.
      change (Z.to_nat 0) with 0%nat.
      change (length (s0 :: sh)) with (S n).
      rewrite remove_seq_last. intros [= <-]. cbn [firstn skipn app].
      unfold transpose; cbn [shape item]. rewrite Hshape.
      split; [simpl; lia|]. split.
      * cbn [map]. rewrite last_as_nth.
        change (length (s0 :: sh) - 1)%nat with (S n - 1)%nat.
        replace (S n - 1)%nat with n by lia.
        f_equal. rewrite map_nth_seq by (simpl; fold n; lia).
        rewrite removelast_firstn_len.
        change (length (s0 :: sh)) with (S n).
        now replace (Nat.pred (S n)) with n by lia.
      * intros t idx Hidx. f_equal.
        unfold ndim. rewrite Hshape.
        change (length (s0 :: sh)) with (S n).
        change (length (s0 :: sh) - 1)%nat with (S n - 1)%nat in Hidx.
        replace (S n - 1)%nat with n in Hidx by lia.
        rewrite seq_S, map_app. cbn [map Nat.add].
        f_equal.
        -- transitivity (firstn n idx);
             [|rewrite <- Hidx; apply firstn_all].
           rewrite <- (map_nth_seq idx 0%nat n) by lia.
           apply map_ext_in. intros k Hk. apply in_seq in Hk.
           unfold index_of. cbn [index_from].
           destruct (Nat.eqb_spec n k) as [Hnk|_]; [lia|].
           rewrite index_from_seq by lia.
           replace (1 + (k - 0))%nat with (S k) by lia. reflexivity.
        -- unfold index_of. cbn [index_from]. rewrite Nat.eqb_refl.
           reflexivity.
Qed.

Section DispatchProperties.

Variable kcsd : Type.
Variable kernel_method :
  string -> list (list npfloat) -> list (list npfloat) -> dict -> result kcsd.
Variable cross_validate : kcsd -> dict -> result kcsd.
Variable values : kcsd -> result ndarray.
Variable estm_x estm_y estm_z : kcsd -> result ndarray.

Local Abbreviation CSD' :=
  (CSD kernel_method cross_validate values estm_x estm_y estm_z).
Local Abbreviation estimate' :=
  (estimate kernel_method cross_validate values estm_x estm_y estm_z).

(** [CSD] is its three validation stages followed by [estimate]. *)
Lemma CSD_stages (signals : list AnalogSignal)
      (coords : option (list coordinate)) (method : option string)
      (params cv_params : dict) :
  CSD' signals coords method params cv_params =
  match scaled_coords signals coords with
  | inl e => ([], inl e)
  | inr cs =>
      match validate signals cs method with
      | inl e => ([], inl e)
      | inr (dim, name) =>
          match input_matrix signals with
          | inl e => ([], inl e)
          | inr input =>
              estimate' signals cs dim name input params cv_params
          end
      end
  end.
Proof.
  unfold CSD, tbind, lift.
  destruct (scaled_coords signals coords) as [e|cs]; [reflexivity|].
  destruct (validate signals cs method) as [e|[dim name]]; [reflexivity|].
  destruct (input_matrix signals) as [e|input]; [reflexivity|].
  destruct (estimate' _ _ _ _ _ _ _) as [log r]. reflexivity.
Qed.

(** The first thing [estimate] does for a kernel method is to build the
    estimator. *)
Lemma estimate_constructs (signals : list AnalogSignal)
      (cs : list (list npfloat)) (dim : nat) (name : string)
      (input : list (list npfloat)) (params cv_params : dict) :
  py_in name all_kernel_methods = true ->
  exists log r,
    estimate' signals cs dim name input params cv_params
    = (Constructed name cs input params :: log, r).
Proof.
  intros Hin. unfold estimate. rewrite Hin.
  unfold tbind at 1, call.
  destruct (kernel_method name cs input params) as [e|k].
  - do 2 eexists; reflexivity.
  - match goal with
    | |- context [let (_, _) := ?t in _] => destruct t as [log r]
    end.
    do 2 eexists; reflexivity.
Qed.

Lemma tbind_call_ok {A B} (ev : event) (a : A) (f : A -> traced B) :
  tbind (call ev (inr a)) f = (ev :: fst (f a), snd (f a)).
Proof. unfold tbind, call. now destruct (f a). Qed.

Lemma tbind_call_raise {A B} (ev : event) (e : exn) (f : A -> traced B) :
  tbind (call ev (inl e)) f = ([ev], inl e).
Proof. reflexivity. Qed.

Lemma tbind_lift_ok {A B} (a : A) (f : A -> traced B) :
  tbind (lift (inr a)) f = f a.
Proof. unfold tbind, lift. now destruct (f a). Qed.

Lemma tbind_success {A B} (t : traced A) (f : A -> traced B)
      (log : list event) (b : B) :
  tbind t f = (log, inr b) ->
  exists l1 a l2, t = (l1, inr a) /\ f a = (l2, inr b) /\ log = l1 ++ l2.
Proof.
  unfold tbind. destruct t as [l1 [e|a]]; [discriminate|].
  destruct (f a) as [l2 r] eqn:Hf. intros [= <- ->].
  now exists l1, a, l2.
Qed.

(** What a successful run of [estimate] went through. *)
Lemma estimate_success (signals : list AnalogSignal)
      (cs : list (list npfloat)) (dim : nat) (name : string)
      (input : list (list npfloat)) (params cv_params : dict)
      (log : list event) (out : AnalogSignalArray) :
  estimate' signals cs dim name input params cv_params = (log, inr out) ->
  exists k0 k raw first,
    kernel_method name cs input params = inr k0
    /\ (if truthy cv_params then cross_validate k0 cv_params = inr k
        else k = k0)
    /\ values k = inr raw
    /\ rollaxis raw (-1) 0 = inr (signal out)
    /\ nth_error signals 0 = Some first
    /\ signal_units out = ("uA/mm**", dim)
    /\ out_t_start out = t_start first
    /\ out_sampling_rate out = sampling_rate first
    /\ exists axes,
        annotations out = combine (coordinate_axes dim) axes
        /\ length axes = length (coordinate_axes dim)
        /\ Forall2 (fun attr v => attr k = inr v)
                   (firstn (length axes) [estm_x; estm_y; estm_z]) axes.
Proof.
  unfold estimate.
  destruct (py_in name all_kernel_methods) eqn:Hin; [|discriminate].
  intros H.
  apply tbind_success in H. destruct H as (l1 & k0 & l1' & Hk0 & H & _).
  apply tbind_success in H. destruct H as (l2 & k & l2' & Hk & H & _).
  apply tbind_success in H. destruct H as (l3 & raw & l3' & Hraw & H & _).
  apply tbind_success in H. destruct H as (l4 & rolled & l4' & Hroll & H & _).
  apply tbind_success in H. destruct H as (l5 & first & l5' & Hfirst & H & _).
  unfold call in Hk0, Hraw. unfold lift in Hroll, Hfirst.
  injection Hk0 as _ Hk0. injection Hraw as _ Hraw.
  injection Hroll as _ Hroll. injection Hfirst as _ Hfirst.
  exists k0, k, raw, first.
  assert (Hcv : if truthy cv_params then cross_validate k0 cv_params = inr k
                else k = k0).
  { cbn [andb] in Hk. destruct (truthy cv_params).
    - apply tbind_success in Hk. destruct Hk as (? & ? & ? & _ & Hk & _).
      unfold call in Hk. now injection Hk as _ Hk.
    - unfold tret, ret in Hk. now injection Hk as _ Hk. }
  assert (Hnth : nth_error signals 0 = Some first).
  { unfold getitem in Hfirst.
    destruct (nth_error signals 0); [|discriminate].
    now injection Hfirst as ->. }
  destruct dim as [|[|[|[|dim]]]]; cbn [Nat.eqb] in H.
  - unfold tret, ret in H. injection H as _ <-.
    repeat (split; [first [assumption|reflexivity]|]).
    exists []. repeat split. constructor.
  - apply tbind_success in H. destruct H as (? & x & ? & Hx & H & _).
    unfold lift in Hx. injection Hx as _ Hx.
    unfold tret, ret in H. injection H as _ <-.
    repeat (split; [first [assumption|reflexivity]|]).
    exists [x]. repeat split. repeat constructor; assumption.
  - apply tbind_success in H. destruct H as (? & x & ? & Hx & H & _).
    apply tbind_success in H. destruct H as (? & y & ? & Hy & H & _).
    unfold lift in Hx, Hy. injection Hx as _ Hx. injection Hy as _ Hy.
    unfold tret, ret in H. injection H as _ <-.
    repeat (split; [first [assumption|reflexivity]|]).
    exists [x; y]. repeat split. repeat constructor; assumption.
  - apply tbind_success in H. destruct H as (? & x & ? & Hx & H & _).
    apply tbind_success in H. destruct H as (? & y & ? & Hy & H & _).
    apply tbind_success in H. destruct H as (? & z & ? & Hz & H & _).
    unfold lift in Hx, Hy, Hz.
    injection Hx as _ Hx. injection Hy as _ Hy. injection Hz as _ Hz.
    unfold tret, ret in H. injection H as _ <-.
    repeat (split; [first [assumption|reflexivity]|]).
    exists [x; y; z]. repeat split. repeat constructor; assumption.
  - unfold tret, ret in H. injection H as _ <-.
    repeat (split; [first [assumption|reflexivity]|]).
    exists []. repeat split. constructor.
Qed.

(** A successful [CSD] call passed the three validation stages. *)
Lemma CSD_success (signals : list AnalogSignal)
      (coords : option (list coordinate)) (method : option string)
      (params cv_params : dict) (log : list event) (out : AnalogSignalArray) :
  CSD' signals coords method params cv_params = (log, inr out) ->
  exists cs dim name input,
    scaled_coords signals coords = inr cs
    /\ validate signals cs method = inr (dim, name)
    /\ input_matrix signals = inr input
    /\ estimate' signals cs dim name input params cv_params = (log, inr out).
Proof.
  rewrite CSD_stages.
  destruct (scaled_coords signals coords) as [e|cs] eqn:Hsc; [discriminate|].
  destruct (validate signals cs method) as [e|[dim name]] eqn:Hv;
    [discriminate|].
  destruct (input_matrix signals) as [e|input] eqn:Hin; [discriminate|].
  intros H. now exists cs, dim, name, input.
Qed.

(** ** C7 *)

(** C7: when the caller supplies [coords] and at least one of them has no
    units, [CSD] raises the [AttributeError] 'No units given for electrode
    spatial coordinates' with no call made into the estimator. *)
Theorem CSD_rejects_coords_without_units
        (signals : list AnalogSignal) (coords : list coordinate)
        (method : option string) (params cv_params : dict) :
  Exists (fun c => ~ has_units c) coords ->
  CSD' signals (Some coords) method params cv_params
  = ([], inl (AttributeError
                "No units given for electrode spatial coordinates")).
Proof.
  intros Hbare. rewrite CSD_stages.
  rewrite (scaled_coords_bare signals coords Hbare). reflexivity.
Qed.

(** ** C6 *)

(** C6: when the number of supplied coordinates differs from the number
    of signals, [CSD] ends in an exception with no call made into the
    estimator and no output; with coordinates that carry units the
    exception is a [ValueError], and when a method is named it is the one
    of the count check. *)
Theorem CSD_rejects_count_mismatch
        (signals : list AnalogSignal) (coords : list coordinate)
        (method : option string) (params cv_params : dict) :
  length coords <> length signals ->
  (exists e, CSD' signals (Some coords) method params cv_params
             = ([], inl e))
  /\ (Forall has_units coords ->
      exists msg,
        CSD' signals (Some coords) method params cv_params
        = ([], inl (ValueError msg []))
        /\ (method <> None ->
            msg = "Number of signals and coords is not same")).
Proof.
  intros Hneq.
  assert (Hval : forall cs, length cs = length coords ->
            exists msg, validate signals cs method = inl (ValueError msg [])
              /\ (method <> None ->
                  msg = "Number of signals and coords is not same")).
  { intros cs Hlen. unfold validate.
    destruct method as [name|].
    - cbv beta iota delta [bind ret].
      rewrite Hlen.
      destruct (Nat.eqb_spec (length coords) (length signals)) as [Heq|_];
        [contradiction|].
      eexists; split; [reflexivity|]. intros _; reflexivity.
    - eexists; split; [reflexivity|]. intros H; now contradiction H. }
  split.
  - rewrite CSD_stages.
    destruct (scaled_coords signals (Some coords)) as [e|cs] eqn:Hsc.
    + now exists e.
    + apply scaled_coords_length in Hsc.
      destruct (Hval cs Hsc) as [msg [Hv _]]. rewrite Hv. eexists; reflexivity.
  - intros Hunits. rewrite CSD_stages.
    destruct (scaled_coords_units signals coords Hunits) as [cs [Hsc Hlen]].
    rewrite Hsc.
    destruct (Hval cs Hlen) as [msg [Hv Hmsg]]. rewrite Hv.
    exists msg. split; [reflexivity|assumption].
Qed.

(** ** C2 *)

(** C2: let the coordinates rescale to [c0 :: rest] and [d], the length of
    [c0], be 1, 2 or 3.  A method outside [available_for d] (or no method)
    makes [CSD] raise a [ValueError] before the estimator is touched; a
    method of [available_for d], with as many coordinates as signals and
    every coordinate of length [d], passes [validate] with dimensionality
    [d], and [CSD] goes on to build the estimator of that name as soon as
    the signal matrix is assembled. *)
Theorem CSD_method_matches_dimensionality
        (signals : list AnalogSignal) (coords : option (list coordinate))
        (method : option string) (params cv_params : dict)
        (c0 : list npfloat) (rest : list (list npfloat)) :
  scaled_coords signals coords = inr (c0 :: rest) ->
  (1 <= length c0 <= 3)%nat ->
  (match method with
   | Some name => py_in name (available_for (length c0)) = false
   | None => True
   end ->
   exists msg opts,
     CSD' signals coords method params cv_params
     = ([], inl (ValueError msg opts)))
  /\ (forall name,
         method = Some name ->
         py_in name (available_for (length c0)) = true ->
         length (c0 :: rest) = length signals ->
         Forall (fun c => length c = length c0) (c0 :: rest) ->
         validate signals (c0 :: rest) method = inr (length c0, name)
         /\ forall input,
             input_matrix signals = inr input ->
             exists log r,
               CSD' signals coords method params cv_params
               = (Constructed name (c0 :: rest) input params :: log, r)).
Proof.
  intros Hsc Hd. split.
  - intros Hbad.
    destruct (validate_rejects signals c0 rest method Hd Hbad)
      as [msg [opts Hv]].
    exists msg, opts. rewrite CSD_stages, Hsc, Hv. reflexivity.
  - intros name -> Hok Hlen Hsame.
    assert (Hle : Forall (fun c => (length c <= 3)%nat) (c0 :: rest)).
    { eapply Forall_impl; [|exact Hsame]. simpl; intros c Hc. lia. }
    pose proof (validate_passes signals c0 rest name Hlen Hle Hok) as Hv.
    split; [exact Hv|].
    intros input Hin.
    rewrite CSD_stages, Hsc, Hv, Hin.
    apply estimate_constructs.
    eapply available_is_kernel_method; eassumption.
Qed.

(** ** C10 *)

(** C10: [validate] looks at every coordinate only for having at most 3
    components and reads the dimensionality off the first one.  So when
    some electrode [c1] has another length than the first electrode [c0],
    every coordinate having at most 3 components, the call is not
    rejected: [validate] answers the length of [c0], [CSD] goes on to
    build the estimator, and a result it returns has its unit tagged with
    the length of [c0]. *)
Theorem CSD_accepts_mixed_dimensions
        (signals : list AnalogSignal) (coords : option (list coordinate))
        (name : string) (params cv_params : dict)
        (c0 c1 : list npfloat) (rest : list (list npfloat))
        (input : list (list npfloat)) :
  scaled_coords signals coords = inr (c0 :: rest) ->
  In c1 rest ->
  length c1 <> length c0 ->
  Forall (fun c => (length c <= 3)%nat) (c0 :: rest) ->
  length (c0 :: rest) = length signals ->
  py_in name (available_for (length c0)) = true ->
  input_matrix signals = inr input ->
  validate signals (c0 :: rest) (Some name) = inr (length c0, name)
  /\ (exists log r,
         CSD' signals coords (Some name) params cv_params
         = (Constructed name (c0 :: rest) input params :: log, r))
  /\ (forall log out,
         CSD' signals coords (Some name) params cv_params = (log, inr out) ->
         signal_units out = ("uA/mm**", length c0)).
Proof.
  intros Hsc _ _ Hle Hlen Hok Hin.
  pose proof (validate_passes signals c0 rest name Hlen Hle Hok) as Hv.
  split; [exact Hv|]. split.
  - rewrite CSD_stages, Hsc, Hv, Hin.
    apply estimate_constructs.
    eapply available_is_kernel_method; eassumption.
  - intros log out. rewrite CSD_stages, Hsc, Hv, Hin. intros H.
    apply estimate_success in H.
    destruct H as (k0 & k & raw & first & _ & _ & _ & _ & _ & Hu & _).
    exact Hu.
Qed.

(** ** C8 *)

(** C8: in a successful call the estimate carried by the output is the
    array [raw] read from the estimator with its last axis moved to the
    front: the leading extent is the last extent of [raw], the others
    follow in their order, and entry [(t, i1, ..., in)] of the output is
    entry [(i1, ..., in, t)] of [raw]. *)
Theorem CSD_rolls_time_axis_to_front
        (signals : list AnalogSignal) (coords : option (list coordinate))
        (method : option string) (params cv_params : dict)
        (log : list event) (out : AnalogSignalArray) :
  CSD' signals coords method params cv_params = (log, inr out) ->
  exists cs name input k0 k raw,
    scaled_coords signals coords = inr cs
    /\ input_matrix signals = inr input
    /\ kernel_method name cs input params = inr k0
    /\ (if truthy cv_params then cross_validate k0 cv_params = inr k
        else k = k0)
    /\ values k = inr raw
    /\ (1 <= ndim raw)%nat
    /\ shape (signal out) = last (shape raw) 0%nat :: removelast (shape raw)
    /\ forall t idx, length idx = (ndim raw - 1)%nat ->
                     item (signal out) (t :: idx) = item raw (idx ++ [t]).
Proof.
  intros H.
  apply CSD_success in H.
  destruct H as (cs & dim & name & input & Hsc & Hv & Hin & H).
  apply estimate_success in H.
  destruct H as (k0 & k & raw & first & Hk0 & Hk & Hraw & Hroll & _).
  apply rollaxis_last_to_front in Hroll.
  destruct Hroll as (Hnd & Hshape & Hitem).
  exists cs, name, input, k0, k, raw. repeat split; assumption.
Qed.

(** ** C9 *)

(** C9: in a successful call the output has the start time and the
    sampling rate of the first signal, and its annotations are, in order,
    one axis of the estimator per component of the first electrode's
    coordinate: [x_coords] for one, [x_coords] and [y_coords] for two,
    [x_coords], [y_coords] and [z_coords] for three. *)
Theorem CSD_output_metadata_and_axes
        (signals : list AnalogSignal) (coords : option (list coordinate))
        (method : option string) (params cv_params : dict)
        (log : list event) (out : AnalogSignalArray) :
  CSD' signals coords method params cv_params = (log, inr out) ->
  exists first c0 rest k,
    nth_error signals 0 = Some first
    /\ scaled_coords signals coords = inr (c0 :: rest)
    /\ out_t_start out = t_start first
    /\ out_sampling_rate out = sampling_rate first
    /\ (length c0 <= 3)%nat
    /\ length (annotations out) = length c0
    /\ map fst (annotations out) = coordinate_axes (length c0)
    /\ Forall2 (fun attr kv => attr k = inr (snd kv))
               (firstn (length c0) [estm_x; estm_y; estm_z])
               (annotations out).
Proof.
  intros H.
  apply CSD_success in H.
  destruct H as (cs & dim & name & input & Hsc & Hv & Hin & H).
  apply validate_success in Hv.
  destruct Hv as (c0 & rest & -> & -> & Hle & _ & _).
  apply estimate_success in H.
  destruct H as (k0 & k & raw & first & _ & _ & _ & _ & Hfirst & _ &
                 Hts & Hsr & axes & Hann & Hlen & Hattr).
  exists first, c0, rest, k.
  inversion Hle as [|? ? Hc0 _]; subst.
  repeat (split; [assumption|]).
  rewrite Hann.
  destruct (length c0) as [|[|[|[|d]]]]; [| | | |lia];
    cbn [coordinate_axes length] in Hlen |- *;
    repeat (destruct axes as [|? axes]; try discriminate Hlen);
    cbn [length firstn] in Hattr;
    (split; [reflexivity|]); (split; [reflexivity|]);
    cbn [combine firstn];
    repeat match goal with
           | Hf : Forall2 _ (_ :: _) (_ :: _) |- _ =>
               inversion Hf; subst; clear Hf
           end;
    repeat constructor; assumption.
Qed.

(** ** C1 *)

(** C1: the test of line 97 never fires on a non-empty [cv_params]: its
    value is the negation of the mapping's truth value.  At [cv_params =
    {'foo': 1}], for one electrode at 0.5 mm with one sample and method
    'KCSD1D', the [KCSD1D] estimator is built first, and when that
    succeeds [cross_validate] is called with the mapping as it came; no
    [TypeError] of [CSD] stands in the way. *)
Theorem CSD_cv_params_key_test_never_fires :
  (forall cv_params : dict,
      cv_params_rejected cv_params = negb (truthy cv_params))
  /\ (let sig := {| magnitude := [Fin 1]; units := mV;
                    t_start := {| q_magnitude := Fin 0; q_units := "s" |};
                    sampling_rate :=
                      {| q_magnitude := Fin 1000; q_units := "Hz" |};
                    channel_coordinate := Some (Quantity [Fin (1 / 2)] mm) |} in
      let foo := [("foo", PyInt 1)] in
      let cs := [[fmul (Fin 1) (Fin (1 / 2))]] in
      let input := [[fmul (Fin 1) (Fin 1)]] in
      match kernel_method "KCSD1D" cs input [] with
      | inl e =>
          CSD' [sig] None (Some "KCSD1D") [] foo
          = ([Constructed "KCSD1D" cs input []], inl e)
      | inr k =>
          exists log r,
            CSD' [sig] None (Some "KCSD1D") [] foo
            = (Constructed "KCSD1D" cs input [] :: CrossValidated foo :: log,
               r)
      end).
Proof.
  split.
  - intros cv. unfold cv_params_rejected, py_and, keys.
    destruct cv as [|kv cv]; reflexivity.
  - cbv zeta. rewrite CSD_stages.
    cbv beta iota delta
        [scaled_coords for_each channel_coordinate_mm channel_coordinate
         rescale_mm bind ret map mm_per].
    change (validate _ _ _) with
      (@inr exn (nat * string) (1%nat, "KCSD1D")).
    cbv beta iota.
    change (input_matrix _) with
      (@inr exn (list (list npfloat)) [[fmul (Fin 1) (Fin 1)]]).
    cbv beta iota.
    unfold estimate.
    change (py_in "KCSD1D" all_kernel_methods) with true.
    cbv beta iota delta [andb truthy].
    change (cv_params_rejected [("foo", PyInt 1)]) with false.
    destruct (kernel_method "KCSD1D" _ _ _) as [e|k]; [reflexivity|].
    rewrite tbind_call_ok.
    unfold check, ret. rewrite tbind_lift_ok.
    destruct (cross_validate k _) as [e|k'].
    + rewrite tbind_call_raise. do 2 eexists; reflexivity.
    + rewrite tbind_call_ok. do 2 eexists; reflexivity.
Qed.

End DispatchProperties.

(* ================================================================== *)
(** * Properties of the forward model *)
(* ================================================================== *)

Lemma bind_assoc {A B C} (m : result A) (f : A -> result B)
      (g : B -> result C) :
  bind (bind m f) g = bind m (fun a => bind (f a) g).
Proof. now destruct m. Qed.

Lemma bind_ret_r {A} (m : result A) : bind m (fun a => ret a) = m.
Proof. now destruct m. Qed.

Lemma for_range_from_ext {A} (s n : nat) (acc : A)
      (b1 b2 : nat -> A -> result A) :
  (forall i a, b1 i a = b2 i a) ->
  for_range_from s n acc b1 = for_range_from s n acc b2.
Proof.
  intros Hext. revert s acc.
  induction n as [|n IH]; intros s acc; [reflexivity|].
  simpl. rewrite Hext. destruct (b2 s acc); [reflexivity|]. apply IH.
Qed.

Lemma for_range_ext {A} (n : nat) (acc : A) (b1 b2 : nat -> A -> result A) :
  (forall i a, b1 i a = b2 i a) ->
  for_range n acc b1 = for_range n acc b2.
Proof. apply for_range_from_ext. Qed.

Lemma list_set_middle {A} (pre tail : list A) (old v : A) :
  list_set (pre ++ old :: tail) (length pre) v = pre ++ v :: tail.
Proof.
  induction pre as [|a pre IH]; [reflexivity|].
  simpl. now rewrite IH.
Qed.

(** A loop that fills [pots[ii]] for [ii] in a range computes the values
    one after the other. *)
Lemma for_range_fill (G : nat -> result npfloat) (n s : nat)
      (pre tail : list npfloat) :
  length pre = s -> length tail = n ->
  for_range_from s n (pre ++ tail)
                 (fun ii pots => v <- G ii ;; setitem pots ii v)
  = (vs <- for_each G (seq s n) ;; ret (pre ++ vs)).
Proof.
  revert s pre tail.
  induction n as [|n IH]; intros s pre tail Hpre Htail.
  - destruct tail; [reflexivity|discriminate].
  - destruct tail as [|old tail]; [discriminate|].
    cbn [for_range_from seq for_each].
    destruct (G s) as [e|v]; [reflexivity|].
    cbn [bind]. unfold setitem.
    replace (s <? length (pre ++ old :: tail))%nat with true
      by (symmetry; apply Nat.ltb_lt; rewrite length_app; simpl; lia).
    cbn [bind ret]. rewrite <- Hpre, list_set_middle.
    replace (pre ++ v :: tail) with ((pre ++ [v]) ++ tail)
      by (now rewrite <- app_assoc).
    rewrite IH; [|rewrite length_app; simpl; lia|simpl in Htail; lia].
    rewrite Hpre.
    destruct (for_each G (seq (S s) n)) as [e|vs]; [reflexivity|].
    cbn [bind ret]. now rewrite <- app_assoc.
Qed.

Lemma for_range_zeros (G : nat -> result npfloat) (n : nat) :
  for_range n (zeros n) (fun ii pots => v <- G ii ;; setitem pots ii v)
  = for_each G (seq 0 n).
Proof.
  unfold for_range.
  pose proof (for_range_fill G n 0 [] (zeros n) eq_refl
                             (repeat_length (Fin 0) n)) as H.
  cbn [app] in H. rewrite H. apply bind_ret_r.
Qed.

Lemma for_each_ext {A B} (f g : A -> result B) (l : list A) :
  (forall a, In a l -> f a = g a) -> for_each f l = for_each g l.
Proof.
  induction l as [|a l IH]; intros Hext; [reflexivity|].
  simpl. rewrite Hext by (now left).
  rewrite IH; [reflexivity|]. intros b Hb. apply Hext. now right.
Qed.

Lemma for_each_getitem {A B} (F : A -> result B) (pre l : list A) :
  for_each (fun ii => x <- getitem (pre ++ l) ii ;; F x)
           (seq (length pre) (length l))
  = for_each F l.
Proof.
  revert pre. induction l as [|a l IH]; intros pre; [reflexivity|].
  cbn [length seq for_each]. unfold getitem at 1.
  rewrite nth_error_app2, Nat.sub_diag by lia. cbn [nth_error bind ret].
  replace (pre ++ a :: l) with ((pre ++ [a]) ++ l)
    by (now rewrite <- app_assoc).
  replace (S (length pre)) with (length (pre ++ [a]))
    by (rewrite length_app; simpl; lia).
  now rewrite IH.
Qed.

Lemma for_each_map_result {A B C} (F : A -> result B) (g : B -> C)
      (l : list A) :
  (vs <- for_each F l ;; ret (map g vs))
  = for_each (fun a => v <- F a ;; ret (g v)) l.
Proof.
  induction l as [|a l IH]; [reflexivity|].
  simpl. destruct (F a) as [e|v]; [reflexivity|]. cbn [bind ret].
  rewrite <- IH. now destruct (for_each F l).
Qed.

Lemma map2_map_map {A B C D} (f : B -> C -> D) (g : A -> B) (h : A -> C)
      (l : list A) :
  map2 f (map g l) (map h l) = map (fun a => f (g a) (h a)) l.
Proof. induction l as [|a l IH]; [reflexivity|]. simpl. now rewrite IH. Qed.

(** Dividing by [2 * sigma] and scaling by [1 / (2 * sigma)] agree for
    [sigma = 1.0], also on the special values. *)
Lemma halve_is_scale (p : npfloat) :
  fdiv p (fmul (Fin 2) (Fin 1))
  = fmul (fdiv (Fin 1) (fmul (Fin 2) (Fin 1))) p.
Proof.
  unfold fmul at 1 3, fdiv, Rzero, Rneg.
  destruct (Req_dec_T (2 * 1) 0) as [H0|_]; [lra|].
  destruct p as [r|s|]; cbn [fmul].
  - f_equal. field.
  - unfold Rzero, Rneg.
    destruct (Rlt_dec (2 * 1) 0) as [H0|_]; [lra|].
    destruct (Req_dec_T (1 / (2 * 1)) 0) as [H0|_]; [lra|].
    destruct (Rlt_dec (1 / (2 * 1)) 0) as [H0|_]; [lra|].
    reflexivity.
  - reflexivity.
Qed.

(** ** C5 *)

(** C5: [FWD] reads the dimensionality off its optional arrays: with
    [ele_zz] it is 3 and the 3D arm runs; without [ele_zz] and with
    [ele_yy] it is 2 and the 2D arm runs; with neither it is 1 and the 1D
    arm runs. *)
Theorem FWD_dimensionality_from_optional_arrays
        (simps : list npfloat -> list npfloat -> result npfloat)
        (profile : csd_profile) (ele_xx : list npfloat)
        (ele_yy ele_zz : option (list npfloat))
        (xlims ylims zlims : npfloat * npfloat) (res : nat) :
  FWD_dim ele_yy ele_zz
  = match ele_zz, ele_yy with
    | Some _, _ => 3%nat
    | None, Some _ => 2%nat
    | None, None => 1%nat
    end
  /\ FWD simps profile ele_xx ele_yy ele_zz xlims ylims zlims res
     = match ele_zz, ele_yy with
       | Some _, _ =>
           FWD_arm3 simps profile ele_xx ele_yy ele_zz xlims ylims zlims res
                    (Fin 1) (zeros (length ele_xx))
       | None, Some _ =>
           FWD_arm2 simps profile ele_xx ele_yy xlims ylims res
                    (linspace (fst xlims) (snd xlims) res)
                    (linspace (fst ylims) (snd ylims) res)
                    (Fin 1) (Fin 50) (zeros (length ele_xx))
       | None, None =>
           FWD_arm1 simps profile ele_xx xlims res (Fin 1) (Fin 50)
                    (zeros (length ele_xx))
       end.
Proof.
  unfold FWD, FWD_dim.
  destruct ele_zz as [zz|]; [|destruct ele_yy as [yy|]]; split; reflexivity.
Qed.

(** ** C4 *)

(** C4: a 1D call (no [ele_yy], no [ele_zz]) computes, electrode by
    electrode, the Simpson integral over the charge grid
    [linspace(xlims[0], xlims[1], res)] of
    [csd(x') * (sqrt((x' - x0)^2 + h^2) - |x' - x0|)] scaled by
    [1 / (2 sigma)], with [sigma = 1.0] and [h = 50]. *)
Theorem FWD_1D_is_scaled_simpson_integral
        (simps : list npfloat -> list npfloat -> result npfloat)
        (csd : npfloat -> npfloat) (ele_xx : list npfloat)
        (xlims ylims zlims : npfloat * npfloat) (res : nat) :
  FWD simps (Profile1D csd) ele_xx None None xlims ylims zlims res
  = for_each (potential_1D_spec simps csd
                (linspace (fst xlims) (snd xlims) res) (Fin 1) (Fin 50))
             ele_xx.
Proof.
  unfold FWD, FWD_dim. cbn [Nat.eqb]. unfold FWD_arm1.
  cbn [call_profile1 bind ret].
  set (grid := linspace (fst xlims) (snd xlims) res).
  rewrite (for_range_ext (length ele_xx) (zeros (length ele_xx)) _
             (fun ii pots =>
                v <- (x0 <- getitem ele_xx ii ;;
                      integrate_1D simps x0 grid (map csd grid) (Fin 50)) ;;
                setitem pots ii v))
    by (intros i a; now rewrite bind_assoc).
  rewrite for_range_zeros.
  pose proof (for_each_getitem
                (fun x0 => integrate_1D simps x0 grid (map csd grid) (Fin 50))
                [] ele_xx) as Hget.
  cbn [app length] in Hget. rewrite Hget. clear Hget.
  rewrite for_each_map_result.
  apply for_each_ext. intros x0 _.
  unfold integrate_1D, potential_1D_spec.
  rewrite map2_map_map, bind_ret_r.
  destruct (simps _ grid) as [e|I]; [reflexivity|].
  cbn [bind ret]. f_equal. apply halve_is_scale.
Qed.

(* ================================================================== *)
(** * The statements at concrete inputs *)
(* ================================================================== *)

(** A bare coordinate among the supplied ones. *)
Lemma CSD_rejects_coords_without_units_witness :
  Exists (fun c => ~ has_units c) [Quantity [Fin 1] mm; Bare [Fin 2]]
  /\ stub_CSD [one_sample 1 None; one_sample 2 None]
              (Some [Quantity [Fin 1] mm; Bare [Fin 2]])
              (Some "KCSD1D") [] []
     = ([], inl (AttributeError
                   "No units given for electrode spatial coordinates")).
Proof.
  assert (H : Exists (fun c => ~ has_units c)
                     [Quantity [Fin 1] mm; Bare [Fin 2]]).
  { apply Exists_cons_tl. apply Exists_cons_hd. simpl. tauto. }
  split; [exact H|].
  exact (CSD_rejects_coords_without_units
           nat stub_kernel_method stub_cross_validate stub_values
           stub_axis stub_axis stub_axis
           [one_sample 1 None; one_sample 2 None]
           [Quantity [Fin 1] mm; Bare [Fin 2]] (Some "KCSD1D") [] [] H).
Defined.

(** Three electrodes and four signals. *)
Lemma CSD_rejects_count_mismatch_witness :
  length [Quantity [Fin 1] mm; Quantity [Fin 2] mm; Quantity [Fin 3] mm]
  <> length [one_sample 1 None; one_sample 2 None; one_sample 3 None;
             one_sample 4 None]
  /\ stub_CSD [one_sample 1 None; one_sample 2 None; one_sample 3 None;
               one_sample 4 None]
              (Some [Quantity [Fin 1] mm; Quantity [Fin 2] mm;
                     Quantity [Fin 3] mm])
              (Some "KCSD1D") [] []
     = ([], inl (ValueError "Number of signals and coords is not same" [])).
Proof.
  assert (H : length [Quantity [Fin 1] mm; Quantity [Fin 2] mm;
                      Quantity [Fin 3] mm]
              <> length [one_sample 1 None; one_sample 2 None;
                         one_sample 3 None; one_sample 4 None])
    by (simpl; lia).
  split; [exact H|].
  destruct (CSD_rejects_count_mismatch
              nat stub_kernel_method stub_cross_validate stub_values
              stub_axis stub_axis stub_axis _ _ (Some "KCSD1D") [] [] H)
    as [_ Hval].
  destruct Hval as [msg [Heq Hmsg]].
  - repeat constructor.
  - rewrite (Hmsg ltac:(discriminate)) in Heq. exact Heq.
Defined.

(** Two electrodes in the plane: 'KCSD3D' is turned away, 'MoIKCSD' goes
    through to the estimator. *)
Lemma CSD_method_matches_dimensionality_witness :
  let signals := [one_sample 1 None; one_sample 2 None] in
  let coords := Some [Quantity [Fin 0; Fin 0] mm; Quantity [Fin 1; Fin 0] mm] in
  let c0 := [Fin (1 * 0); Fin (1 * 0)] in
  let rest := [[Fin (1 * 1); Fin (1 * 0)]] in
  scaled_coords signals coords = inr (c0 :: rest)
  /\ (1 <= length c0 <= 3)%nat
  /\ (exists msg opts,
         stub_CSD signals coords (Some "KCSD3D") [] []
         = ([], inl (ValueError msg opts)))
  /\ (exists log r,
         stub_CSD signals coords (Some "MoIKCSD") [] []
         = (Constructed "MoIKCSD" (c0 :: rest)
                        [[Fin (1 * 1)]; [Fin (1 * 2)]] [] :: log, r)).
Proof.
  intros signals coords c0 rest.
  assert (Hsc : scaled_coords signals coords = inr (c0 :: rest))
    by reflexivity.
  assert (Hd : (1 <= length c0 <= 3)%nat) by (simpl; lia).
  split; [exact Hsc|]. split; [exact Hd|]. split.
  - destruct (CSD_method_matches_dimensionality
                nat stub_kernel_method stub_cross_validate stub_values
                stub_axis stub_axis stub_axis
                signals coords (Some "KCSD3D") [] [] c0 rest Hsc Hd)
      as [Hrej _].
    apply Hrej. reflexivity.
  - destruct (CSD_method_matches_dimensionality
                nat stub_kernel_method stub_cross_validate stub_values
                stub_axis stub_axis stub_axis
                signals coords (Some "MoIKCSD") [] [] c0 rest Hsc Hd)
      as [_ Hacc].
    destruct (Hacc "MoIKCSD" eq_refl eq_refl eq_refl) as [_ Hrun].
    + repeat constructor.
    + apply Hrun. reflexivity.
Defined.

(** A first electrode with two components and a second with one. *)
Lemma CSD_accepts_mixed_dimensions_witness :
  let signals := [one_sample 1 None; one_sample 2 None] in
  let coords := Some [Quantity [Fin 0; Fin 0] mm; Quantity [Fin 1] mm] in
  let c0 := [Fin (1 * 0); Fin (1 * 0)] in
  let c1 := [Fin (1 * 1)] in
  length c1 <> length c0
  /\ validate signals [c0; c1] (Some "KCSD2D") = inr (2%nat, "KCSD2D")
  /\ exists log r,
      stub_CSD signals coords (Some "KCSD2D") [] []
      = (Constructed "KCSD2D" [c0; c1] [[Fin (1 * 1)]; [Fin (1 * 2)]] []
           :: log, r).
Proof.
  intros signals coords c0 c1.
  assert (Hne : length c1 <> length c0) by (simpl; lia).
  split; [exact Hne|].
  destruct (CSD_accepts_mixed_dimensions
              nat stub_kernel_method stub_cross_validate stub_values
              stub_axis stub_axis stub_axis
              signals coords "KCSD2D" [] [] c0 c1 [c1]
              [[Fin (1 * 1)]; [Fin (1 * 2)]])
    as [Hv [Hrun _]].
  - reflexivity.
  - now left.
  - exact Hne.
  - repeat constructor.
  - reflexivity.
  - reflexivity.
  - reflexivity.
  - split; [exact Hv|exact Hrun].
Defined.

(** One electrode at 0.5 mm, method 'KCSD1D': the stand-in estimate of
    shape (3, 1) comes back with shape (1, 3). *)
Lemma CSD_rolls_time_axis_to_front_witness :
  exists log out,
    stub_CSD [one_sample 1 (Some (Quantity [Fin (1 / 2)] mm))] None
             (Some "KCSD1D") [] []
    = (log, inr out)
    /\ shape (signal out) = [1%nat; 3%nat]
    /\ exists raw,
        stub_values 1 = inr raw
        /\ forall t idx, length idx = (ndim raw - 1)%nat ->
                         item (signal out) (t :: idx) = item raw (idx ++ [t]).
Proof.
  eexists. eexists. split; [reflexivity|]. split; [reflexivity|].
  edestruct (CSD_rolls_time_axis_to_front
               nat stub_kernel_method stub_cross_validate stub_values
               stub_axis stub_axis stub_axis
               [one_sample 1 (Some (Quantity [Fin (1 / 2)] mm))] None
               (Some "KCSD1D") [] [])
    as (cs & name & input & k0 & k & raw & Hsc & Hin & Hk0 & Hk & Hraw &
        Hnd & Hshape & Hitem).
  - reflexivity.
  - cbn [truthy] in Hk. subst k.
    injection Hk0 as <-. injection Hsc as <-.
    exists raw. split; [exact Hraw|exact Hitem].
Defined.

(** The same call: start time, sampling rate and the one annotation. *)
Lemma CSD_output_metadata_and_axes_witness :
  exists log out,
    stub_CSD [one_sample 1 (Some (Quantity [Fin (1 / 2)] mm))] None
             (Some "KCSD1D") [] []
    = (log, inr out)
    /\ out_t_start out = seconds 0
    /\ out_sampling_rate out = hertz 1000
    /\ map fst (annotations out) = ["x_coords"].
Proof.
  eexists. eexists. split; [reflexivity|].
  edestruct (CSD_output_metadata_and_axes
               nat stub_kernel_method stub_cross_validate stub_values
               stub_axis stub_axis stub_axis
               [one_sample 1 (Some (Quantity [Fin (1 / 2)] mm))] None
               (Some "KCSD1D") [] [])
    as (first & c0 & rest & k & Hfirst & Hsc & Hts & Hsr & Hle & Hlen &
        Hkeys & Hattr).
  - reflexivity.
  - injection Hfirst as <-. injection Hsc as <- <-.
    split; [exact Hts|]. split; [exact Hsr|exact Hkeys].
Defined.

(* ================================================================== *)
(** * Finite values through the 2D and 3D integrands *)
(* ================================================================== *)

Lemma finite_inv (x : npfloat) : finite x -> exists r, x = Fin r.
Proof. destruct x; simpl; intros H; [now eexists|contradiction..]. Qed.

Lemma finite_fadd (x y : npfloat) : finite x -> finite y -> finite (fadd x y).
Proof. destruct x, y; simpl; tauto. Qed.

Lemma finite_fsub (x y : npfloat) : finite x -> finite y -> finite (fsub x y).
Proof. destruct x, y; simpl; tauto. Qed.

Lemma finite_fmul (x y : npfloat) : finite x -> finite y -> finite (fmul x y).
Proof. destruct x, y; simpl; tauto. Qed.

Lemma fsqrt_nonneg (r : R) : (0 <= r)%R -> fsqrt (Fin r) = Fin (sqrt r).
Proof.
  intros Hr. unfold fsqrt, Rneg.
  destruct (Rlt_dec r 0) as [Hlt|_]; [lra|reflexivity].
Qed.

Lemma fdiv_nonzero (a r : R) : (r <> 0)%R -> fdiv (Fin a) (Fin r) = Fin (a / r).
Proof.
  intros Hr. unfold fdiv, Rzero.
  destruct (Req_dec_T r 0) as [H0|_]; [contradiction|reflexivity].
Qed.

(** The floor: a finite distance comes out finite and at least 1e-7. *)
Lemma floor_at_finite (v : npfloat) :
  finite v ->
  exists r, floor_at dist_floor v = Fin r /\ (1 / 10000000 <= r)%R.
Proof.
  intros Hv. apply finite_inv in Hv. destruct Hv as [a ->].
  unfold floor_at, dist_floor, flt.
  destruct (Rlt_dec a (1 / 10000000)) as [Hlt|Hge].
  - eexists; split; [reflexivity|lra].
  - eexists; split; [reflexivity|lra].
Qed.

Lemma square_nonneg (r : R) : (0 <= r * r)%R.
Proof. exact (Rle_0_sqr r). Qed.

Lemma distance2_finite (x y X Y : npfloat) :
  finite x -> finite y -> finite X -> finite Y ->
  finite (fsqrt (fadd (fsquare (fsub x X)) (fsquare (fsub y Y)))).
Proof.
  intros Hx Hy HX HY.
  apply finite_inv in Hx, Hy, HX, HY.
  destruct Hx as [a ->], Hy as [b ->], HX as [c ->], HY as [d ->].
  cbn [fsub fneg fadd fsquare fmul].
  rewrite fsqrt_nonneg; [exact I|].
  apply Rplus_le_le_0_compat; apply square_nonneg.
Qed.

Lemma distance3_finite (x y z X Y Z : npfloat) :
  finite x -> finite y -> finite z -> finite X -> finite Y -> finite Z ->
  finite (fsqrt (fadd (fadd (fsquare (fsub x X)) (fsquare (fsub y Y)))
                      (fsquare (fsub z Z)))).
Proof.
  intros Hx Hy Hz HX HY HZ.
  apply finite_inv in Hx, Hy, Hz, HX, HY, HZ.
  destruct Hx as [a ->], Hy as [b ->], Hz as [c ->],
           HX as [d ->], HY as [e ->], HZ as [f ->].
  cbn [fsub fneg fadd fsquare fmul].
  rewrite fsqrt_nonneg; [exact I|].
  repeat apply Rplus_le_le_0_compat; apply square_nonneg.
Qed.

(** One entry of the 2D integrand [arcsinh(2*h / m) * csd] after the
    floor. *)
Lemma integrand2_finite (h m c : npfloat) :
  finite h -> finite m -> finite c ->
  finite (fmul (farcsinh (fdiv (fmul (Fin 2) h) (floor_at dist_floor m))) c).
Proof.
  intros Hh Hm Hc.
  destruct (floor_at_finite m Hm) as [r [-> Hr]].
  apply finite_inv in Hh, Hc. destruct Hh as [a ->], Hc as [b ->].
  cbn [fmul]. rewrite fdiv_nonzero by lra. exact I.
Qed.

(** One entry of the 3D integrand [csd / m] after the floor. *)
Lemma integrand3_finite (m c : npfloat) :
  finite m -> finite c -> finite (fdiv c (floor_at dist_floor m)).
Proof.
  intros Hm Hc.
  destruct (floor_at_finite m Hm) as [r [-> Hr]].
  apply finite_inv in Hc. destruct Hc as [b ->].
  rewrite fdiv_nonzero by lra. exact I.
Qed.

(** Without the floor the same entries are not finite where the electrode
    sits on a grid point. *)
Lemma integrands_singular_without_floor (c : R) :
  ~ finite (fdiv (Fin c) (fsqrt (Fin 0)))
  /\ ~ finite (farcsinh (fdiv (fmul (Fin 2) (Fin 50)) (fsqrt (Fin 0)))).
Proof.
  rewrite fsqrt_nonneg by lra. rewrite sqrt_0.
  unfold fdiv, fmul, Rzero.
  destruct (Req_dec_T 0 0) as [_|H]; [|contradiction].
  destruct (Req_dec_T c 0); destruct (Req_dec_T (2 * 50) 0);
    simpl; try tauto; lra.
Qed.

Lemma mgrid_axis_finite (a b : npfloat) (n : nat) :
  finite a -> finite b -> Forall finite (mgrid_axis a b n).
Proof.
  intros Ha Hb. apply finite_inv in Ha, Hb.
  destruct Ha as [ra ->], Hb as [rb ->].
  unfold mgrid_axis. apply Forall_forall. intros v Hv.
  apply in_map_iff in Hv. destruct Hv as [i [<- Hi]]. apply in_seq in Hi.
  destruct (Nat.eqb_spec n 1) as [->|Hn1]; [exact I|].
  cbn [fsub fneg fadd].
  rewrite fdiv_nonzero; [exact I|].
  apply not_0_INR. lia.
Qed.

Lemma mgrid_axis_length (a b : npfloat) (n : nat) :
  length (mgrid_axis a b n) = n.
Proof. unfold mgrid_axis. now rewrite length_map, length_seq. Qed.

Lemma linspace_finite (a b : npfloat) (n : nat) :
  finite a -> finite b -> Forall finite (linspace a b n).
Proof.
  intros Ha Hb. unfold linspace.
  destruct n as [|[|n]]; [constructor|now repeat constructor|].
  apply Forall_forall. intros v Hv.
  apply in_map_iff in Hv. destruct Hv as [i [<- Hi]].
  destruct (i =? S (S n) - 1)%nat; [exact Hb|].
  apply finite_inv in Ha, Hb. destruct Ha as [ra ->], Hb as [rb ->].
  cbn [fsub fneg fadd].
  rewrite fdiv_nonzero; [exact I|].
  apply not_0_INR. lia.
Qed.

Lemma linspace_length (a b : npfloat) (n : nat) :
  length (linspace a b n) = n.
Proof.
  unfold linspace. destruct n as [|[|n]]; [reflexivity..|].
  now rewrite length_map, length_seq.
Qed.

Lemma mgrid2_as_grid (ax ay : list npfloat) :
  mgrid2 ax ay = (grid2 (fun x _ => x) ax ay, grid2 (fun _ y => y) ax ay).
Proof.
  unfold mgrid2, grid2. f_equal.
  apply map_ext. intros x. symmetry. apply map_id.
Qed.

Lemma map2_grid2 {A B C} (F : A -> B -> C)
      (h1 : npfloat -> npfloat -> A) (h2 : npfloat -> npfloat -> B)
      (ax ay : list npfloat) :
  map2 (map2 F) (grid2 h1 ax ay) (grid2 h2 ax ay)
  = grid2 (fun x y => F (h1 x y) (h2 x y)) ax ay.
Proof.
  unfold grid2. rewrite map2_map_map. apply map_ext. intros x.
  apply map2_map_map.
Qed.

Lemma map_grid2 {A B} (F : A -> B) (h : npfloat -> npfloat -> A)
      (ax ay : list npfloat) :
  map (map F) (grid2 h ax ay) = grid2 (fun x y => F (h x y)) ax ay.
Proof.
  unfold grid2. rewrite map_map. apply map_ext. intros x. apply map_map.
Qed.

Lemma column_grid2 (h : npfloat -> npfloat -> npfloat)
      (ax ay : list npfloat) (i : nat) (yi : npfloat) :
  nth_error ay i = Some yi ->
  column (grid2 h ax ay) i = ret (map (fun xi => h xi yi) ax).
Proof.
  intros Hi. unfold column, grid2.
  induction ax as [|a ax IH]; [reflexivity|].
  cbn [map fold_right]. unfold getitem at 1.
  rewrite (map_nth_error (fun yj => h a yj) i ay Hi).
  cbn [bind ret]. rewrite IH. reflexivity.
Qed.

Lemma for_each_finite {A} (G : A -> result npfloat) (l : list A) :
  (forall a, In a l -> exists v, G a = inr v /\ finite v) ->
  exists vs, for_each G l = inr vs
             /\ length vs = length l /\ Forall finite vs.
Proof.
  induction l as [|a l IH]; intros HG.
  - exists []. repeat split. constructor.
  - destruct (HG a (or_introl eq_refl)) as [v [Hv Hfin]].
    destruct IH as [vs [Hvs [Hlen Hall]]].
    { intros b Hb. apply HG. now right. }
    exists (v :: vs). cbn [for_each]. rewrite Hv, Hvs.
    repeat split; [simpl; now rewrite Hlen|now constructor].
Qed.

Lemma nth_error_finite (l : list npfloat) (i : nat) :
  Forall finite l -> (i < length l)%nat ->
  exists v, nth_error l i = Some v /\ finite v.
Proof.
  intros Hall Hi.
  destruct (nth_error l i) as [v|] eqn:Hnth.
  - exists v. split; [reflexivity|].
    rewrite Forall_forall in Hall. apply Hall.
    eapply nth_error_In; eassumption.
  - apply nth_error_None in Hnth. lia.
Qed.

Lemma map3_map_map {A B C D E} (f : B -> C -> D -> E)
      (g1 : A -> B) (g2 : A -> C) (g3 : A -> D) (l : list A) :
  map3 f (map g1 l) (map g2 l) (map g3 l)
  = map (fun a => f (g1 a) (g2 a) (g3 a)) l.
Proof.
  unfold map3. induction l as [|a l IH]; [reflexivity|].
  cbn [map combine map2 fst snd]. now rewrite IH.
Qed.

Lemma mgrid3_as_grid (ax ay az : list npfloat) :
  mgrid3 ax ay az
  = (grid3 (fun x _ _ => x) ax ay az,
     grid3 (fun _ y _ => y) ax ay az,
     grid3 (fun _ _ z => z) ax ay az).
Proof.
  unfold mgrid3, grid3, grid2. f_equal.
  apply map_ext. intros x. apply map_ext. intros y.
  symmetry. apply map_id.
Qed.

Lemma map3_grid3 {A B C D} (F : A -> B -> C -> D)
      (h1 : npfloat -> npfloat -> npfloat -> A)
      (h2 : npfloat -> npfloat -> npfloat -> B)
      (h3 : npfloat -> npfloat -> npfloat -> C)
      (ax ay az : list npfloat) :
  map3 (map3 (map3 F)) (grid3 h1 ax ay az) (grid3 h2 ax ay az)
       (grid3 h3 ax ay az)
  = grid3 (fun x y z => F (h1 x y z) (h2 x y z) (h3 x y z)) ax ay az.
Proof.
  unfold grid3, grid2. rewrite map3_map_map. apply map_ext. intros x.
  rewrite map3_map_map. apply map_ext. intros y. apply map3_map_map.
Qed.

Lemma map_grid3 {A B} (F : A -> B)
      (h : npfloat -> npfloat -> npfloat -> A) (ax ay az : list npfloat) :
  map (map (map F)) (grid3 h ax ay az)
  = grid3 (fun x y z => F (h x y z)) ax ay az.
Proof.
  unfold grid3. rewrite map_map. apply map_ext. intros x. apply map_grid2.
Qed.

Lemma map2_grid3 {A B C} (F : A -> B -> C)
      (h1 : npfloat -> npfloat -> npfloat -> A)
      (h2 : npfloat -> npfloat -> npfloat -> B)
      (ax ay az : list npfloat) :
  map2 (map2 (map2 F)) (grid3 h1 ax ay az) (grid3 h2 ax ay az)
  = grid3 (fun x y z => F (h1 x y z) (h2 x y z)) ax ay az.
Proof.
  unfold grid3. rewrite map2_map_map. apply map_ext. intros x.
  apply map2_grid2.
Qed.

Lemma column3_grid3 (h : npfloat -> npfloat -> npfloat -> npfloat)
      (ax ay az : list npfloat) (j i : nat) (yj zi : npfloat) :
  nth_error ay j = Some yj -> nth_error az i = Some zi ->
  column3 (grid3 h ax ay az) j i = ret (map (fun xi => h xi yj zi) ax).
Proof.
  intros Hj Hi. unfold column3, grid3, grid2.
  induction ax as [|a ax IH]; [reflexivity|].
  cbn [map fold_right]. unfold getitem at 1.
  rewrite (map_nth_error (fun y => map (fun z => h a y z) az) j ay Hj).
  cbn [bind ret]. unfold getitem at 1.
  rewrite (map_nth_error (fun z => h a yj z) i az Hi).
  cbn [bind ret]. rewrite IH. reflexivity.
Qed.

Lemma scale_finite (c : R) (pots : list npfloat) :
  (c <> 0)%R -> Forall finite pots ->
  Forall finite (map (fun p => fdiv p (Fin c)) pots).
Proof.
  intros Hc Hall. apply Forall_forall. intros v Hv.
  apply in_map_iff in Hv. destruct Hv as [p [<- Hp]].
  rewrite Forall_forall in Hall. specialize (Hall p Hp).
  apply finite_inv in Hall. destruct Hall as [r ->].
  now rewrite fdiv_nonzero.
Qed.

Section Singularity.

Variable simps : list npfloat -> list npfloat -> result npfloat.

Lemma integrate_2D_finite (f : npfloat -> npfloat -> npfloat)
      (x y h : npfloat) (xlin ylin ax ay : list npfloat) (n : nat) :
  finite_quadrature_on simps xlin -> finite_quadrature_on simps ylin ->
  (forall u v, finite u -> finite v -> finite (f u v)) ->
  finite x -> finite y -> finite h ->
  length xlin = n -> length ylin = n -> length ax = n -> length ay = n ->
  Forall finite ax -> Forall finite ay ->
  exists F,
    integrate_2D simps x y xlin ylin (grid2 f ax ay) h
                 (grid2 (fun u _ => u) ax ay) (grid2 (fun _ v => v) ax ay)
    = inr F /\ finite F.
Proof.
  intros Qx Qy Hf Hx Hy Hh Lxlin Lylin Lax Lay Fax Fay.
  unfold integrate_2D.
  rewrite map2_grid2, map_grid2, map2_grid2.
  set (g := fun u v : npfloat =>
              fmul (farcsinh
                      (fdiv (fmul (Fin 2) h)
                            (floor_at dist_floor
                               (fsqrt (fadd (fsquare (fsub x u))
                                            (fsquare (fsub y v)))))))
                   (f u v)).
  rewrite (for_range_ext (length ylin) (zeros (length ylin)) _
             (fun i I =>
                v <- (col <- column (grid2 g ax ay) i ;; simps col ylin) ;;
                setitem I i v))
    by (intros i a; now rewrite bind_assoc).
  rewrite for_range_zeros.
  destruct (for_each_finite
              (fun i => col <- column (grid2 g ax ay) i ;; simps col ylin)
              (seq 0 (length ylin))) as [I [HI [LI FI]]].
  { intros i Hi. apply in_seq in Hi.
    destruct (nth_error_finite ay i Fay ltac:(lia)) as [yi [Hyi Fyi]].
    rewrite (column_grid2 g ax ay i yi Hyi). cbn [bind ret].
    apply Qy.
    - rewrite length_map. lia.
    - apply Forall_forall. intros v Hv.
      apply in_map_iff in Hv. destruct Hv as [xi [<- Hxi]].
      rewrite Forall_forall in Fax.
      apply integrand2_finite; auto using distance2_finite. }
  rewrite HI. cbn [bind ret]. rewrite bind_ret_r.
  apply Qx; [|assumption].
  rewrite LI, length_seq. lia.
Qed.

Lemma integrate_3D_finite (f : npfloat -> npfloat -> npfloat -> npfloat)
      (x y z : npfloat) (xlim ylim zlim : npfloat * npfloat)
      (xlin ylin zlin ax ay az : list npfloat) (n : nat) :
  finite_quadrature_on simps xlin -> finite_quadrature_on simps ylin ->
  finite_quadrature_on simps zlin ->
  (forall u v w, finite u -> finite v -> finite w -> finite (f u v w)) ->
  finite x -> finite y -> finite z ->
  length xlin = n -> length ylin = n -> length zlin = n ->
  length ax = n -> length ay = n -> length az = n ->
  Forall finite ax -> Forall finite ay -> Forall finite az ->
  exists F,
    integrate_3D simps x y z xlim ylim zlim (grid3 f ax ay az)
                 xlin ylin zlin
                 (grid3 (fun u _ _ => u) ax ay az)
                 (grid3 (fun _ v _ => v) ax ay az)
                 (grid3 (fun _ _ w => w) ax ay az)
    = inr F /\ finite F.
Proof.
  intros Qx Qy Qz Hf Hx Hy Hz Lxlin Lylin Lzlin Lax Lay Laz Fax Fay Faz.
  unfold integrate_3D.
  rewrite map3_grid3, map_grid3, map2_grid3.
  set (g := fun u v w : npfloat =>
              fdiv (f u v w)
                   (floor_at dist_floor
                      (fsqrt (fadd (fadd (fsquare (fsub x u))
                                         (fsquare (fsub y v)))
                                   (fsquare (fsub z w)))))).
  set (inner := fun j i : nat =>
                  col <- column3 (grid3 g ax ay az) j i ;; simps col zlin).
  rewrite (for_range_ext (length ylin) (zeros (length ylin)) _
             (fun j Iy =>
                v <- (Iz <- for_each (inner j) (seq 0 (length zlin)) ;;
                      simps Iz ylin) ;;
                setitem Iy j v)).
  2:{ intros j a.
      rewrite (for_range_ext (length zlin) (zeros (length zlin)) _
                 (fun i Iz => v <- inner j i ;; setitem Iz i v))
        by (intros i b; unfold inner; now rewrite bind_assoc).
      rewrite for_range_zeros. now rewrite bind_assoc. }
  rewrite for_range_zeros.
  destruct (for_each_finite
              (fun j => Iz <- for_each (inner j) (seq 0 (length zlin)) ;;
                        simps Iz ylin)
              (seq 0 (length ylin))) as [Iy [HIy [LIy FIy]]].
  { intros j Hj. apply in_seq in Hj.
    destruct (nth_error_finite ay j Fay ltac:(lia)) as [yj [Hyj Fyj]].
    destruct (for_each_finite (inner j) (seq 0 (length zlin)))
      as [Iz [HIz [LIz FIz]]].
    { intros i Hi. apply in_seq in Hi.
      destruct (nth_error_finite az i Faz ltac:(lia)) as [zi [Hzi Fzi]].
      unfold inner. rewrite (column3_grid3 g ax ay az j i yj zi Hyj Hzi).
      cbn [bind ret].
      apply Qz.
      - rewrite length_map. lia.
      - apply Forall_forall. intros v Hv.
        apply in_map_iff in Hv. destruct Hv as [xi [<- Hxi]].
        rewrite Forall_forall in Fax.
        apply integrand3_finite; auto using distance3_finite. }
    rewrite HIz. cbn [bind ret].
    apply Qy; [|assumption].
    rewrite LIz, length_seq. lia. }
  rewrite HIy. cbn [bind ret]. rewrite bind_ret_r.
  apply Qx; [|assumption].
  rewrite LIy, length_seq. lia.
Qed.

Lemma electrode_loop_finite (G : nat -> result npfloat) (n : nat) (c : R) :
  (c <> 0)%R ->
  (forall i, (i < n)%nat -> exists v, G i = inr v /\ finite v) ->
  exists pots,
    (pots <- for_range n (zeros n)
               (fun ii pots => v <- G ii ;; setitem pots ii v) ;;
     ret (map (fun p => fdiv p (Fin c)) pots)) = inr pots
    /\ length pots = n /\ Forall finite pots.
Proof.
  intros Hc HG. rewrite for_range_zeros.
  destruct (for_each_finite G (seq 0 n)) as [vs [Hvs [Lvs Fvs]]].
  { intros i Hi. apply in_seq in Hi. apply HG. lia. }
  rewrite Hvs. cbn [bind ret]. eexists. split; [reflexivity|]. split.
  - now rewrite length_map, Lvs, length_seq.
  - now apply scale_finite.
Qed.

Lemma getitem_finite (l : list npfloat) (i : nat) :
  Forall finite l -> (i < length l)%nat ->
  exists v, getitem l i = ret v /\ finite v.
Proof.
  intros Hall Hi.
  destruct (nth_error_finite l i Hall Hi) as [v [Hv Hfin]].
  exists v. unfold getitem. now rewrite Hv.
Qed.

Lemma FWD_2D_finite (f : npfloat -> npfloat -> npfloat)
      (ele_xx ele_yy : list npfloat)
      (xlims ylims zlims : npfloat * npfloat) (res : nat) :
  finite_quadrature_on simps (linspace (fst xlims) (snd xlims) res) ->
  finite_quadrature_on simps (linspace (fst ylims) (snd ylims) res) ->
  (forall u v, finite u -> finite v -> finite (f u v)) ->
  Forall finite ele_xx -> Forall finite ele_yy ->
  length ele_yy = length ele_xx ->
  finite_lims xlims -> finite_lims ylims ->
  exists pots,
    FWD simps (Profile2D f) ele_xx (Some ele_yy) None xlims ylims zlims res
    = inr pots
    /\ length pots = length ele_xx /\ Forall finite pots.
Proof.
  intros Qx Qy Hf Fxx Fyy Lyy [Fx0 Fx1] [Fy0 Fy1].
  unfold FWD, FWD_dim. cbn [Nat.eqb]. unfold FWD_arm2.
  rewrite mgrid2_as_grid. cbn [call_profile2 bind ret].
  rewrite map2_grid2.
  set (ax := mgrid_axis (fst xlims) (snd xlims) res).
  set (ay := mgrid_axis (fst ylims) (snd ylims) res).
  set (xlin := linspace (fst xlims) (snd xlims) res).
  set (ylin := linspace (fst ylims) (snd ylims) res).
  set (G := fun ii : nat =>
              ex <- getitem ele_xx ii ;;
              ey <- getitem ele_yy ii ;;
              integrate_2D simps ex ey xlin ylin (grid2 f ax ay) (Fin 50)
                (grid2 (fun u _ => u) ax ay) (grid2 (fun _ v => v) ax ay)).
  rewrite (for_range_ext (length ele_xx) (zeros (length ele_xx)) _
             (fun ii pots => v <- G ii ;; setitem pots ii v))
    by (intros i a; unfold G; cbn [getitem_opt];
        destruct (getitem ele_xx i); [reflexivity|]; cbn [bind];
        destruct (getitem ele_yy i); reflexivity).
  cbn [fmul].
  apply electrode_loop_finite.
  - pose proof PI_RGT_0. lra.
  - intros i Hi. unfold G.
    destruct (getitem_finite ele_xx i Fxx Hi) as [ex [-> Fex]].
    destruct (getitem_finite ele_yy i Fyy ltac:(lia)) as [ey [-> Fey]].
    cbn [bind ret].
    apply (integrate_2D_finite f ex ey (Fin 50) xlin ylin ax ay res);
      try assumption; try exact I;
      try apply linspace_length; try apply mgrid_axis_length;
      try (apply mgrid_axis_finite; assumption).
Qed.

Lemma grid2_first_row {A} (h : npfloat -> npfloat -> A)
      (ay az : list npfloat) (y0 : npfloat) :
  nth_error ay 0 = Some y0 ->
  getitem (grid2 h ay az) 0 = ret (map (fun z => h y0 z) az).
Proof.
  intros H0. unfold getitem, grid2.
  now rewrite (map_nth_error (fun y => map (fun z => h y z) az) 0 ay H0).
Qed.

Lemma grid3_first_plane {A} (h : npfloat -> npfloat -> npfloat -> A)
      (ax ay az : list npfloat) (x0 : npfloat) :
  nth_error ax 0 = Some x0 ->
  getitem (grid3 h ax ay az) 0 = ret (grid2 (h x0) ay az).
Proof.
  intros H0. unfold getitem, grid3.
  now rewrite (map_nth_error (fun x => grid2 (h x) ay az) 0 ax H0).
Qed.

Lemma first_entry {A} (l : list A) :
  (0 < length l)%nat -> exists a, nth_error l 0 = Some a.
Proof. destruct l as [|a l]; simpl; [lia|]. intros _. now exists a. Qed.

Lemma FWD_3D_finite (f : npfloat -> npfloat -> npfloat -> npfloat)
      (ele_xx ele_yy ele_zz : list npfloat)
      (xlims ylims zlims : npfloat * npfloat) (res : nat) :
  finite_quadrature_on simps (mgrid_axis (fst xlims) (snd xlims) res) ->
  finite_quadrature_on simps (mgrid_axis (fst ylims) (snd ylims) res) ->
  finite_quadrature_on simps (mgrid_axis (fst zlims) (snd zlims) res) ->
  (forall u v w, finite u -> finite v -> finite w -> finite (f u v w)) ->
  Forall finite ele_xx -> Forall finite ele_yy -> Forall finite ele_zz ->
  length ele_yy = length ele_xx -> length ele_zz = length ele_xx ->
  finite_lims xlims -> finite_lims ylims -> finite_lims zlims ->
  (0 < res)%nat ->
  exists pots,
    FWD simps (Profile3D f) ele_xx (Some ele_yy) (Some ele_zz)
        xlims ylims zlims res
    = inr pots
    /\ length pots = length ele_xx /\ Forall finite pots.
Proof.
  intros Qx Qy Qz Hf Fxx Fyy Fzz Lyy Lzz [Fx0 Fx1] [Fy0 Fy1] [Fz0 Fz1] Hres.
  unfold FWD, FWD_dim. cbn [Nat.eqb]. unfold FWD_arm3.
  rewrite mgrid3_as_grid. cbn [call_profile3 bind ret].
  rewrite map3_grid3.
  set (ax := mgrid_axis (fst xlims) (snd xlims) res).
  set (ay := mgrid_axis (fst ylims) (snd ylims) res).
  set (az := mgrid_axis (fst zlims) (snd zlims) res).
  assert (Lax : length ax = res) by apply mgrid_axis_length.
  assert (Lay : length ay = res) by apply mgrid_axis_length.
  assert (Laz : length az = res) by apply mgrid_axis_length.
  destruct (first_entry ax ltac:(lia)) as [x0 Hx0].
  destruct (first_entry ay ltac:(lia)) as [y0 Hy0].
  destruct (first_entry az ltac:(lia)) as [z0 Hz0].
  destruct (Nat.eqb_spec res 0) as [H0|_]; [lia|].
  rewrite (column3_grid3 (fun u _ _ => u) ax ay az 0 0 y0 z0 Hy0 Hz0).
  cbn [bind ret]. rewrite map_id.
  unfold first_axis.
  rewrite (grid3_first_plane (fun _ y _ => y) ax ay az x0 Hx0).
  cbn [bind ret].
  rewrite (column_grid2 (fun y _ => y) ay az 0 z0 Hz0).
  cbn [bind ret]. rewrite map_id.
  rewrite (grid3_first_plane (fun _ _ z => z) ax ay az x0 Hx0).
  cbn [bind ret].
  rewrite (grid2_first_row (fun _ z => z) ay az y0 Hy0).
  cbn [bind ret]. rewrite map_id.
  set (G := fun ii : nat =>
              ex <- getitem ele_xx ii ;;
              ey <- getitem ele_yy ii ;;
              ez <- getitem ele_zz ii ;;
              integrate_3D simps ex ey ez xlims ylims zlims
                (grid3 (fun u v w => f u v w) ax ay az) ax ay az
                (grid3 (fun u _ _ => u) ax ay az)
                (grid3 (fun _ v _ => v) ax ay az)
                (grid3 (fun _ _ w => w) ax ay az)).
  rewrite (for_range_ext (length ele_xx) (zeros (length ele_xx)) _
             (fun ii pots => v <- G ii ;; setitem pots ii v))
    by (intros i a; unfold G; cbn [getitem_opt];
        destruct (getitem ele_xx i); [reflexivity|]; cbn [bind];
        destruct (getitem ele_yy i); [reflexivity|]; cbn [bind];
        destruct (getitem ele_zz i); reflexivity).
  cbn [fmul].
  apply electrode_loop_finite.
  - pose proof PI_RGT_0. lra.
  - intros i Hi. unfold G.
    destruct (getitem_finite ele_xx i Fxx Hi) as [ex [-> Fex]].
    destruct (getitem_finite ele_yy i Fyy ltac:(lia)) as [ey [-> Fey]].
    destruct (getitem_finite ele_zz i Fzz ltac:(lia)) as [ez [-> Fez]].
    cbn [bind ret].
    apply (integrate_3D_finite (fun u v w => f u v w) ex ey ez
             xlims ylims zlims ax ay az ax ay az res);
      try assumption; try (apply mgrid_axis_finite; assumption).
Qed.

(** ** C3 *)

(** C3: the floor replaces every distance below 1e-7 by 1e-7, so that a
    finite distance is finite and at least 1e-7 when [arcsinh(2*h / m)]
    (2D) or [csd / m] (3D) is formed.
    So when the electrode positions, the bounds and the profile's values
    are finite and the quadrature over the grid axes answers finite values
    on finite samples, a 2D call and a 3D call (with at least one grid point per axis) return
    one finite potential per electrode, wherever the electrodes sit, on a
    grid point or not. *)
Theorem FWD_finite_potentials_at_grid_points
        (f2 : npfloat -> npfloat -> npfloat)
        (f3 : npfloat -> npfloat -> npfloat -> npfloat)
        (ele_xx ele_yy ele_zz : list npfloat)
        (xlims ylims zlims : npfloat * npfloat) (res : nat) :
  Forall (finite_quadrature_on simps)
         [linspace (fst xlims) (snd xlims) res;
          linspace (fst ylims) (snd ylims) res;
          mgrid_axis (fst xlims) (snd xlims) res;
          mgrid_axis (fst ylims) (snd ylims) res;
          mgrid_axis (fst zlims) (snd zlims) res] ->
  (forall u v, finite u -> finite v -> finite (f2 u v)) ->
  (forall u v w, finite u -> finite v -> finite w -> finite (f3 u v w)) ->
  Forall finite ele_xx -> Forall finite ele_yy -> Forall finite ele_zz ->
  length ele_yy = length ele_xx -> length ele_zz = length ele_xx ->
  finite_lims xlims -> finite_lims ylims -> finite_lims zlims ->
  (0 < res)%nat ->
  (forall m, (flt m dist_floor = true -> floor_at dist_floor m = dist_floor)
             /\ (finite m ->
                 exists r, floor_at dist_floor m = Fin r
                           /\ (1 / 10000000 <= r)%R))
  /\ (exists pots,
         FWD simps (Profile2D f2) ele_xx (Some ele_yy) None
             xlims ylims zlims res = inr pots
         /\ length pots = length ele_xx /\ Forall finite pots)
  /\ (exists pots,
         FWD simps (Profile3D f3) ele_xx (Some ele_yy) (Some ele_zz)
             xlims ylims zlims res = inr pots
         /\ length pots = length ele_xx /\ Forall finite pots).
Proof.
  intros Hq Hf2 Hf3 Fxx Fyy Fzz Lyy Lzz Hx Hy Hz Hres.
  inversion Hq as [|? ? Q1 Hq1]; subst. inversion Hq1 as [|? ? Q2 Hq2]; subst.
  inversion Hq2 as [|? ? Q3 Hq3]; subst. inversion Hq3 as [|? ? Q4 Hq4]; subst.
  inversion Hq4 as [|? ? Q5 _]; subst.
  split; [|split].
  - intros m. split; [|apply floor_at_finite].
    intros Hlt. unfold floor_at. now rewrite Hlt.
  - now apply FWD_2D_finite.
  - now apply FWD_3D_finite.
Qed.

End Singularity.

Lemma simpson_sum_finite (ys : list npfloat) :
  Forall finite ys ->
  finite (simpson_sum ys)
  /\ forall y, finite y -> finite (simpson_sum (y :: ys)).
Proof.
  induction ys as [|a ys IH]; intros Hall.
  - split; [exact I|]. intros y _. exact I.
  - inversion Hall as [|? ? Ha Hys]; subst.
    destruct (IH Hys) as [IH1 IH2].
    split; [now apply IH2|].
    intros y Hy. destruct ys as [|b ys]; [exact I|].
    inversion Hys as [|? ? Hb _]; subst.
    change (simpson_sum (y :: a :: b :: ys))
      with (fadd (fadd y (fadd (fmul (Fin 4) a) b)) (simpson_sum (b :: ys))).
    repeat apply finite_fadd; try assumption.
    apply finite_fmul; [exact I|assumption].
Qed.

Lemma simpson_uniform_finite (xs : list npfloat) :
  Forall finite xs -> finite_quadrature_on simpson_uniform xs.
Proof.
  intros Hxs ys _ Hys. unfold simpson_uniform.
  destruct xs as [|x0 [|x1 xs]]; try (exists (Fin 0); now split).
  eexists. split; [reflexivity|].
  inversion Hxs as [|? ? H0 Hxs']; subst.
  inversion Hxs' as [|? ? H1 _]; subst.
  apply finite_fmul; [|now apply simpson_sum_finite].
  apply finite_inv in H0, H1. destruct H0 as [a ->], H1 as [b ->].
  cbn [fsub fneg fadd]. rewrite fdiv_nonzero by lra. exact I.
Qed.

(** One electrode sitting on the grid point at the origin of a grid of
    three points per axis over [0, 1]. *)
Lemma FWD_finite_potentials_at_grid_points_witness :
  nth_error (mgrid_axis (Fin 0) (Fin 1) 3) 0 = Some (Fin 0)
  /\ (exists pots,
         FWD simpson_uniform (Profile2D fadd) [Fin 0] (Some [Fin 0]) None
             default_lims default_lims default_lims 3 = inr pots
         /\ length pots = 1%nat /\ Forall finite pots)
  /\ (exists pots,
         FWD simpson_uniform (Profile3D (fun x y z => fadd x (fadd y z)))
             [Fin 0] (Some [Fin 0]) (Some [Fin 0])
             default_lims default_lims default_lims 3 = inr pots
         /\ length pots = 1%nat /\ Forall finite pots).
Proof.
  split.
  - unfold mgrid_axis. cbn [Nat.eqb seq map nth_error Nat.sub].
    cbn [fsub fneg fadd]. rewrite fdiv_nonzero by (simpl; lra).
    cbn [fmul fadd]. do 2 f_equal. simpl. lra.
  - assert (Hlims : finite_lims default_lims) by (split; exact I).
    assert (Hele : Forall finite [Fin 0]) by (repeat constructor).
    assert (Hq : forall n, finite_quadrature_on simpson_uniform
                             (linspace (Fin 0) (Fin 1) n)
                           /\ finite_quadrature_on simpson_uniform
                                (mgrid_axis (Fin 0) (Fin 1) n)).
    { intros n. split; apply simpson_uniform_finite;
        [apply linspace_finite|apply mgrid_axis_finite]; exact I. }
    destruct (FWD_finite_potentials_at_grid_points
                simpson_uniform
                fadd (fun x y z => fadd x (fadd y z))
                [Fin 0] [Fin 0] [Fin 0]
                default_lims default_lims default_lims 3)
      as (_ & H2 & H3);
      auto using finite_fadd, Nat.lt_0_succ.
    repeat constructor; apply Hq.
Defined.

(* ================================================================== *)
(** * The electrode grid *)
(* ================================================================== *)

Lemma concat_const_length {A B} (l : list A) (row : list B) :
  length (concat (map (fun _ => row) l)) = (length l * length row)%nat.
Proof.
  induction l as [|a l IH]; [reflexivity|].
  cbn [map concat]. rewrite length_app, IH. reflexivity.
Qed.

Lemma combine_app_same {A B} (l1 l2 : list A) (m1 m2 : list B) :
  length l1 = length m1 ->
  combine (l1 ++ l2) (m1 ++ m2) = combine l1 m1 ++ combine l2 m2.
Proof.
  revert m1. induction l1 as [|a l1 IH]; intros [|b m1] Hlen;
    try discriminate; [reflexivity|].
  cbn [app combine]. f_equal. apply IH. now injection Hlen.
Qed.

Lemma combine_const_l {A B} (a : A) (l : list B) :
  combine (map (fun _ => a) l) l = map (fun b => (a, b)) l.
Proof. induction l as [|b l IH]; [reflexivity|]. simpl. now rewrite IH. Qed.

(** Flattening the two arrays of a 2D mesh lists the grid points in
    row-major order. *)
Lemma mgrid2_flatten (ax ay : list npfloat) :
  combine (flatten2 (fst (mgrid2 ax ay))) (flatten2 (snd (mgrid2 ax ay)))
  = list_prod ax ay.
Proof.
  unfold mgrid2, flatten2. cbn [fst snd].
  induction ax as [|a ax IH]; [reflexivity|].
  cbn [map concat list_prod].
  rewrite combine_app_same by now rewrite length_map.
  now rewrite IH, combine_const_l.
Qed.

Lemma concat_map_length {A B} (h : A -> list B) (l : list A) (n : nat) :
  (forall a, length (h a) = n) ->
  length (concat (map h l)) = (length l * n)%nat.
Proof.
  intros Hh. induction l as [|a l IH]; [reflexivity|].
  cbn [map concat length]. rewrite length_app, Hh, IH. reflexivity.
Qed.

Lemma list_prod_app_l {A B} (l1 l2 : list A) (l' : list B) :
  list_prod (l1 ++ l2) l' = list_prod l1 l' ++ list_prod l2 l'.
Proof.
  induction l1 as [|a l1 IH]; [reflexivity|].
  cbn [app list_prod]. now rewrite IH, app_assoc.
Qed.

Lemma mesh_plane_flatten (a : npfloat) (ay az : list npfloat) :
  combine (combine
             (concat (map (fun _ : npfloat => map (fun _ : npfloat => a) az)
                          ay))
             (concat (map (fun yj : npfloat => map (fun _ : npfloat => yj) az)
                          ay)))
          (concat (map (fun _ : npfloat => az) ay))
  = list_prod (map (fun b => (a, b)) ay) az.
Proof.
  induction ay as [|b ay IH]; [reflexivity|].
  cbn [map concat list_prod].
  rewrite combine_app_same by now rewrite !length_map.
  rewrite combine_app_same
    by (rewrite length_combine, !length_map; apply Nat.min_id).
  rewrite IH. f_equal.
  clear. induction az as [|c az IH]; [reflexivity|].
  simpl. now rewrite IH.
Qed.

Lemma mgrid3_flatten (ax ay az : list npfloat) :
  combine (combine (flatten3 (fst (fst (mgrid3 ax ay az))))
                   (flatten3 (snd (fst (mgrid3 ax ay az)))))
          (flatten3 (snd (mgrid3 ax ay az)))
  = list_prod (list_prod ax ay) az.
Proof.
  unfold mgrid3, flatten3. cbn [fst snd]. rewrite !map_map.
  induction ax as [|a ax IH]; [reflexivity|].
  cbn [map concat list_prod].
  rewrite combine_app_same.
  2:{ rewrite (concat_map_length _ ay (length az))
        by (intros; apply length_map).
      rewrite (concat_map_length _ ay (length az))
        by (intros; apply length_map).
      reflexivity. }
  rewrite combine_app_same.
  2:{ rewrite length_combine.
      rewrite (concat_map_length _ ay (length az))
        by (intros; apply length_map).
      rewrite (concat_map_length _ ay (length az))
        by (intros; apply length_map).
      rewrite (concat_map_length _ ay (length az)) by reflexivity.
      apply Nat.min_id. }
  now rewrite mesh_plane_flatten, IH, list_prod_app_l.
Qed.

(** X1: [generate_electrodes] lists every point of the regular grid once,
    in row-major order: for [dim = 2] the pairs [(ele_x[k], ele_y[k])] are
    the Cartesian product of the two axes ([res * res] electrodes), for
    [dim = 3] the triples are the product of the three axes
    ([res * res * res] electrodes), for [dim = 1] the electrodes are the
    [res] axis points; any other [dim] gives [None]. *)
Theorem generate_electrodes_enumerates_grid
        (xlims ylims zlims : npfloat * npfloat) (res : nat) :
  let ax := mgrid_axis (fst xlims) (snd xlims) res in
  let ay := mgrid_axis (fst ylims) (snd ylims) res in
  let az := mgrid_axis (fst zlims) (snd zlims) res in
  (generate_electrodes 1 xlims ylims zlims res = Some (Ele1 ax)
   /\ length ax = res)
  /\ (exists ex ey,
         generate_electrodes 2 xlims ylims zlims res = Some (Ele2 ex ey)
         /\ combine ex ey = list_prod ax ay
         /\ length ex = (res * res)%nat /\ length ey = (res * res)%nat)
  /\ (exists ex ey ez,
         generate_electrodes 3 xlims ylims zlims res = Some (Ele3 ex ey ez)
         /\ combine (combine ex ey) ez = list_prod (list_prod ax ay) az
         /\ length ex = (res * res * res)%nat
         /\ length ey = (res * res * res)%nat
         /\ length ez = (res * res * res)%nat)
  /\ (forall dim, (dim = 0 \/ 3 < dim)%nat ->
                  generate_electrodes dim xlims ylims zlims res = None).
Proof.
  intros ax ay az.
  assert (Lx : length ax = res) by apply mgrid_axis_length.
  assert (Ly : length ay = res) by apply mgrid_axis_length.
  assert (Lz : length az = res) by apply mgrid_axis_length.
  split; [split; [reflexivity|exact Lx]|]. split; [|split].
  - exists (flatten2 (fst (mgrid2 ax ay))), (flatten2 (snd (mgrid2 ax ay))).
    split; [reflexivity|]. split; [apply mgrid2_flatten|].
    unfold mgrid2, flatten2. cbn [fst snd]. split.
    + rewrite (concat_map_length _ ax res) by (intros; now rewrite length_map).
      now rewrite Lx.
    + rewrite (concat_map_length _ ax res) by (intros; exact Ly).
      now rewrite Lx.
  - exists (flatten3 (fst (fst (mgrid3 ax ay az)))),
           (flatten3 (snd (fst (mgrid3 ax ay az)))),
           (flatten3 (snd (mgrid3 ax ay az))).
    split; [reflexivity|]. split; [apply mgrid3_flatten|].
    unfold mgrid3, flatten3. cbn [fst snd]. rewrite !map_map.
    assert (Hplane : forall (h : npfloat -> list (list npfloat)),
               (forall x, length (concat (h x)) = (res * res)%nat) ->
               length (concat (map (fun x => concat (h x)) ax))
               = (res * res * res)%nat).
    { intros h Hh. rewrite (concat_map_length _ ax (res * res)) by exact Hh.
      rewrite Lx. lia. }
    repeat split; apply Hplane; intros x.
    + rewrite (concat_map_length _ ay res) by (intros; now rewrite length_map).
      now rewrite Ly.
    + rewrite (concat_map_length _ ay res) by (intros; now rewrite length_map).
      now rewrite Ly.
    + rewrite (concat_map_length _ ay res) by (intros; exact Lz).
      now rewrite Ly.
  - intros dim Hdim. unfold generate_electrodes.
    destruct dim as [|[|[|[|dim]]]]; try lia; reflexivity.
Qed.

(** Five electrodes per axis, and a dimensionality of four. *)
Lemma generate_electrodes_enumerates_grid_witness :
  (exists ex ey,
      generate_electrodes 2 (Fin (1 / 10), Fin (9 / 10))
                          (Fin (1 / 10), Fin (9 / 10))
                          (Fin (1 / 10), Fin (9 / 10)) 5
      = Some (Ele2 ex ey)
      /\ length ex = 25%nat /\ length ey = 25%nat)
  /\ (3 < 4)%nat
  /\ generate_electrodes 4 (Fin (1 / 10), Fin (9 / 10))
                         (Fin (1 / 10), Fin (9 / 10))
                         (Fin (1 / 10), Fin (9 / 10)) 5 = None.
Proof.
  destruct (generate_electrodes_enumerates_grid
              (Fin (1 / 10), Fin (9 / 10)) (Fin (1 / 10), Fin (9 / 10))
              (Fin (1 / 10), Fin (9 / 10)) 5)
    as (_ & (ex & ey & Hgen & _ & Lex & Ley) & _ & Hnone).
  split; [exists ex, ey; now repeat split|].
  assert (H4 : (3 < 4)%nat) by lia.
  split; [exact H4|]. apply Hnone. right. exact H4.
Defined.

Lemma nth_error_seq_lt (s n i : nat) :
  (i < n)%nat -> nth_error (seq s n) i = Some (s + i)%nat.
Proof.
  revert s i. induction n as [|n IH]; intros s i Hi; [lia|].
  destruct i as [|i]; cbn [seq nth_error]; [f_equal; lia|].
  rewrite IH by lia. f_equal. lia.
Qed.

(** With finite limits and at least two points, the grid axis starts at
    the lower limit, ends at the upper limit and is evenly spaced. *)
Lemma mgrid_axis_points (a b : R) (n i : nat) :
  (2 <= n)%nat -> (i < n)%nat ->
  nth_error (mgrid_axis (Fin a) (Fin b) n) i
  = Some (Fin (a + INR i * (b - a) / INR (n - 1)))
  /\ nth_error (mgrid_axis (Fin a) (Fin b) n) 0 = Some (Fin a)
  /\ nth_error (mgrid_axis (Fin a) (Fin b) n) (n - 1) = Some (Fin b).
Proof.
  intros Hn Hi.
  assert (Hne : INR (n - 1) <> 0%R) by (apply not_0_INR; lia).
  assert (Hpt : forall j, (j < n)%nat ->
            nth_error (mgrid_axis (Fin a) (Fin b) n) j
            = Some (Fin (a + INR j * (b - a) / INR (n - 1)))).
  { intros j Hj. unfold mgrid_axis.
    destruct (Nat.eqb_spec n 1) as [H1|_]; [lia|].
    erewrite map_nth_error by (apply nth_error_seq_lt; exact Hj).
    cbn [Nat.add fsub fneg fadd]. rewrite fdiv_nonzero by exact Hne.
    cbn [fmul fadd]. do 2 f_equal. field. exact Hne. }
  split; [now apply Hpt|]. split.
  - rewrite Hpt by lia. do 2 f_equal. simpl INR. field. exact Hne.
  - rewrite Hpt by lia. do 2 f_equal. field. exact Hne.
Qed.

(** X2: with finite limits and at least two electrodes,
    [generate_electrodes(1, ...)] places electrode [i] at
    [xlims[0] + i * (xlims[1] - xlims[0]) / (res - 1)]: the first electrode
    sits on the lower limit, the last one on the upper limit, and the
    spacing is even. *)
Theorem generate_electrodes_1D_points
        (a b : R) (ylims zlims : npfloat * npfloat) (res i : nat) :
  (2 <= res)%nat -> (i < res)%nat ->
  exists ele_x,
    generate_electrodes 1 (Fin a, Fin b) ylims zlims res = Some (Ele1 ele_x)
    /\ nth_error ele_x i = Some (Fin (a + INR i * (b - a) / INR (res - 1)))
    /\ nth_error ele_x 0 = Some (Fin a)
    /\ nth_error ele_x (res - 1) = Some (Fin b).
Proof.
  intros Hres Hi. exists (mgrid_axis (Fin a) (Fin b) res).
  split; [reflexivity|]. now apply mgrid_axis_points.
Qed.

(** The default electrode axis: five points from 0.1 to 0.9. *)
Lemma generate_electrodes_1D_points_witness :
  (2 <= 5)%nat /\ (2 < 5)%nat
  /\ exists ele_x,
      generate_electrodes 1 (Fin (1 / 10), Fin (9 / 10))
                          (Fin (1 / 10), Fin (9 / 10))
                          (Fin (1 / 10), Fin (9 / 10)) 5
      = Some (Ele1 ele_x)
      /\ nth_error ele_x 0 = Some (Fin (1 / 10))
      /\ nth_error ele_x (5 - 1) = Some (Fin (9 / 10)).
Proof.
  assert (H2 : (2 <= 5)%nat) by lia.
  assert (Hi : (2 < 5)%nat) by lia.
  split; [exact H2|]. split; [exact Hi|].
  destruct (generate_electrodes_1D_points
              (1 / 10) (9 / 10) (Fin (1 / 10), Fin (9 / 10))
              (Fin (1 / 10), Fin (9 / 10)) 5 2 H2 Hi)
    as (ele_x & Hgen & _ & H0 & Hl).
  exists ele_x. repeat split; assumption.
Defined.

(** On finite limits [np.linspace] and the complex-step [np.mgrid] give
    the same points, so the abscissae [FWD] hands to the quadrature in 2D
    are the axes of its charge grid. *)
Lemma linspace_is_mgrid_axis (a b : R) (n : nat) :
  linspace (Fin a) (Fin b) n = mgrid_axis (Fin a) (Fin b) n.
Proof.
  unfold linspace, mgrid_axis.
  destruct n as [|[|n]].
  - reflexivity.
  - cbn [Nat.eqb seq map fmul fadd]. do 2 f_equal. simpl INR. ring.
  - cbn [Nat.eqb]. apply map_ext_in. intros i Hi. apply in_seq in Hi.
    assert (Hne : INR (S (S n) - 1) <> 0%R) by (apply not_0_INR; lia).
    cbn [fsub fneg fadd]. rewrite fdiv_nonzero by exact Hne.
    cbn [fmul fadd].
    destruct (Nat.eqb_spec i (S (S n) - 1)) as [->|_]; [|reflexivity].
    f_equal. field. exact Hne.
Qed.

(* ================================================================== *)
(** * More on the forward model *)
(* ================================================================== *)

Lemma list_set_length {A} (l : list A) (i : nat) (v : A) :
  length (list_set l i v) = length l.
Proof.
  revert i. induction l as [|a l IH]; intros [|i]; simpl; auto.
Qed.

Lemma setitem_length {A} (l l' : list A) (i : nat) (v : A) :
  setitem l i v = inr l' -> length l' = length l.
Proof.
  unfold setitem. destruct (i <? length l)%nat; [|discriminate].
  intros [= <-]. apply list_set_length.
Qed.

Lemma for_range_from_length {A} (body : nat -> list A -> result (list A))
      (n s : nat) (acc r : list A) :
  (forall i a a', body i a = inr a' -> length a' = length a) ->
  for_range_from s n acc body = inr r -> length r = length acc.
Proof.
  intros Hbody. revert s acc.
  induction n as [|n IH]; intros s acc H.
  - injection H as <-. reflexivity.
  - cbn [for_range_from] in H.
    destruct (body s acc) as [e|acc'] eqn:Hb; [discriminate|].
    cbn [bind] in H. apply IH in H. rewrite H. eapply Hbody; eassumption.
Qed.

Ltac bind_inv H :=
  repeat match type of H with
         | bind ?m _ = inr _ =>
             let Hm := fresh "Hm" in
             destruct m eqn:Hm; [discriminate H|cbn [bind] in H]
         end.

Section ForwardMore.

Variable simps : list npfloat -> list npfloat -> result npfloat.

(** X3: whenever [FWD] returns, it returns exactly one potential per
    entry of [ele_xx], in every dimensionality. *)
Theorem FWD_one_potential_per_electrode
        (profile : csd_profile) (ele_xx : list npfloat)
        (ele_yy ele_zz : option (list npfloat))
        (xlims ylims zlims : npfloat * npfloat) (res : nat)
        (pots : list npfloat) :
  FWD simps profile ele_xx ele_yy ele_zz xlims ylims zlims res = inr pots ->
  length pots = length ele_xx.
Proof.
  assert (Hset : forall (body : nat -> list npfloat -> result (list npfloat))
                        (l : list npfloat),
             (forall i a a', body i a = inr a' -> length a' = length a) ->
             for_range (length ele_xx) (zeros (length ele_xx)) body = inr l ->
             length l = length ele_xx).
  { intros body l Hbody Hl. unfold for_range in Hl.
    apply for_range_from_length in Hl; [|exact Hbody].
    rewrite Hl. apply repeat_length. }
  unfold FWD, FWD_dim.
  destruct ele_zz as [zz|]; [|destruct ele_yy as [yy|]]; cbn [Nat.eqb];
    unfold FWD_arm1, FWD_arm2, FWD_arm3, mgrid2, mgrid3;
    intros H; bind_inv H; injection H as <-; rewrite length_map;
    match goal with
    | Hl : for_range _ _ _ = inr _ |- _ =>
        apply Hset in Hl; [exact Hl|]
    end;
    intros i a' a'' Hb; cbv beta in Hb; bind_inv Hb;
    eapply setitem_length; eassumption.
Qed.

(** X4: a profile that does not take as many coordinate arrays as the
    dimensionality read off [ele_yy] and [ele_zz] makes [FWD] end in the
    call's [TypeError], whatever the electrodes. *)
Theorem FWD_profile_arity_mismatch
        (profile : csd_profile) (ele_xx : list npfloat)
        (ele_yy ele_zz : option (list npfloat))
        (xlims ylims zlims : npfloat * npfloat) (res : nat) :
  profile_arity profile <> FWD_dim ele_yy ele_zz ->
  FWD simps profile ele_xx ele_yy ele_zz xlims ylims zlims res
  = inl arity_error.
Proof.
  unfold FWD, FWD_dim, FWD_arm1, FWD_arm2, FWD_arm3, mgrid2, mgrid3.
  destruct profile, ele_zz as [zz|], ele_yy as [yy|];
    cbn [profile_arity Nat.eqb call_profile1 call_profile2 call_profile3
         bind raise];
    intros Hne; try reflexivity; now contradiction Hne.
Qed.

(** X5: giving [ele_zz] without [ele_yy] selects the 3D arm, which then
    indexes the missing [ele_yy]: with a 3D profile, at least one grid
    point and at least one electrode the call ends in a [TypeError]. *)
Theorem FWD_z_without_y_fails
        (f : npfloat -> npfloat -> npfloat -> npfloat)
        (ele_xx ele_zz : list npfloat)
        (xlims ylims zlims : npfloat * npfloat) (res : nat) :
  (0 < res)%nat -> ele_xx <> [] ->
  FWD simps (Profile3D f) ele_xx None (Some ele_zz) xlims ylims zlims res
  = inl (TypeError "'NoneType' object is not subscriptable").
Proof.
  intros Hres Hne.
  destruct ele_xx as [|x0 rest]; [contradiction|].
  unfold FWD, FWD_dim. cbn [Nat.eqb]. unfold FWD_arm3.
  rewrite mgrid3_as_grid. cbn [call_profile3 bind ret].
  set (ax := mgrid_axis (fst xlims) (snd xlims) res).
  set (ay := mgrid_axis (fst ylims) (snd ylims) res).
  set (az := mgrid_axis (fst zlims) (snd zlims) res).
  assert (Lax : length ax = res) by apply mgrid_axis_length.
  assert (Lay : length ay = res) by apply mgrid_axis_length.
  assert (Laz : length az = res) by apply mgrid_axis_length.
  destruct (first_entry ax ltac:(lia)) as [x' Hx0].
  destruct (first_entry ay ltac:(lia)) as [y' Hy0].
  destruct (first_entry az ltac:(lia)) as [z' Hz0].
  destruct (Nat.eqb_spec res 0) as [H0|_]; [lia|].
  rewrite (column3_grid3 (fun u _ _ => u) ax ay az 0 0 y' z' Hy0 Hz0).
  cbn [bind ret].
  unfold first_axis.
  rewrite (grid3_first_plane (fun _ y _ => y) ax ay az x' Hx0).
  cbn [bind ret].
  rewrite (column_grid2 (fun y _ => y) ay az 0 z' Hz0).
  cbn [bind ret].
  rewrite (grid3_first_plane (fun _ _ z => z) ax ay az x' Hx0).
  cbn [bind ret].
  rewrite (grid2_first_row (fun _ z => z) ay az y' Hy0).
  cbn [bind ret].
  reflexivity.
Qed.

End ForwardMore.

(** One electrode, [ele_zz] given, [ele_yy] left out. *)
Lemma FWD_z_without_y_fails_witness :
  FWD simpson_uniform (Profile3D gauss_3d_dipole) [Fin 0] None
      (Some [Fin 0]) default_lims default_lims default_lims 3
  = inl (TypeError "'NoneType' object is not subscriptable").
Proof.
  apply FWD_z_without_y_fails; [apply Nat.lt_0_succ|discriminate].
Defined.

(** A 1D profile with [ele_yy] supplied. *)
Lemma FWD_profile_arity_mismatch_witness :
  profile_arity (Profile1D gauss_1d_dipole)
  <> FWD_dim (Some [Fin 0]) None
  /\ FWD simpson_uniform (Profile1D gauss_1d_dipole) [Fin 0] (Some [Fin 0])
         None default_lims default_lims default_lims 3
     = inl arity_error.
Proof.
  assert (H : profile_arity (Profile1D gauss_1d_dipole)
              <> FWD_dim (Some [Fin 0]) None) by discriminate.
  split; [exact H|].
  exact (FWD_profile_arity_mismatch simpson_uniform
           (Profile1D gauss_1d_dipole) [Fin 0] (Some [Fin 0]) None
           default_lims default_lims default_lims 3 H).
Defined.

(** The potentials of an electrode at the origin of a 2D set-up. *)
Lemma FWD_one_potential_per_electrode_witness :
  exists pots,
    FWD simpson_uniform (Profile2D fadd) [Fin 0] (Some [Fin 0]) None
        default_lims default_lims default_lims 3 = inr pots
    /\ length pots = 1%nat.
Proof.
  destruct (FWD_2D_finite simpson_uniform fadd [Fin 0] [Fin 0]
              default_lims default_lims default_lims 3)
    as (pots & Hrun & _ & _).
  - apply simpson_uniform_finite, linspace_finite; exact I.
  - apply simpson_uniform_finite, linspace_finite; exact I.
  - apply finite_fadd.
  - repeat constructor.
  - repeat constructor.
  - reflexivity.
  - split; exact I.
  - split; exact I.
  - exists pots. split; [exact Hrun|].
    exact (FWD_one_potential_per_electrode simpson_uniform _ _ _ _ _ _ _ _ _
             Hrun).
Defined.

Lemma for_each_indexed {A B} (F : A -> result B) (G : nat -> result B)
      (l : list A) (s : nat) :
  (forall i a, nth_error l i = Some a -> G (s + i)%nat = F a) ->
  for_each G (seq s (length l)) = for_each F l.
Proof.
  revert s. induction l as [|a l IH]; intros s HG; [reflexivity|].
  cbn [length seq for_each].
  rewrite <- (HG 0%nat a eq_refl), Nat.add_0_r.
  rewrite (IH (S s)); [reflexivity|].
  intros i b Hi. rewrite <- (HG (S i) b Hi). f_equal. lia.
Qed.

Lemma nth_error_combine_inv {A B} (l : list A) (l' : list B) (i : nat)
      (a : A) (b : B) :
  nth_error (combine l l') i = Some (a, b) ->
  nth_error l i = Some a /\ nth_error l' i = Some b.
Proof.
  revert l' i. induction l as [|x l IH]; intros [|y l'] [|i] H;
    try discriminate.
  - injection H as -> ->. now split.
  - exact (IH l' i H).
Qed.

Section NestedQuadrature.

Variable simps : list npfloat -> list npfloat -> result npfloat.

Lemma integrate_2D_on_grid (f : npfloat -> npfloat -> npfloat)
      (x y : npfloat) (xlin ylin ax ay : list npfloat) :
  length ylin = length ay ->
  integrate_2D simps x y xlin ylin (grid2 f ax ay) (Fin 50)
               (grid2 (fun u _ => u) ax ay) (grid2 (fun _ v => v) ax ay)
  = (I <- for_each
            (fun yi =>
               simps (map (fun xi =>
                             fmul (farcsinh
                                     (fdiv (fmul (Fin 2) (Fin 50))
                                           (floor_at dist_floor
                                              (fsqrt
                                                 (fadd (fsquare (fsub x xi))
                                                       (fsquare (fsub y yi)))))))
                                  (f xi yi)) ax) ylin) ay ;;
     simps I xlin).
Proof.
  intros Hlen. unfold integrate_2D.
  rewrite map2_grid2, map_grid2, map2_grid2.
  set (g := fun u v : npfloat =>
              fmul (farcsinh
                      (fdiv (fmul (Fin 2) (Fin 50))
                            (floor_at dist_floor
                               (fsqrt (fadd (fsquare (fsub x u))
                                            (fsquare (fsub y v)))))))
                   (f u v)).
  rewrite (for_range_ext (length ylin) (zeros (length ylin)) _
             (fun i I =>
                v <- (col <- column (grid2 g ax ay) i ;; simps col ylin) ;;
                setitem I i v))
    by (intros i a; now rewrite bind_assoc).
  rewrite for_range_zeros, Hlen.
  rewrite (for_each_indexed
             (fun yi => simps (map (fun xi => g xi yi) ax) ylin) _ ay 0).
  - destruct (for_each _ ay) as [e|I]; [reflexivity|].
    cbn [bind]. apply bind_ret_r.
  - intros i yi Hi. cbn [Nat.add].
    now rewrite (column_grid2 g ax ay i yi Hi).
Qed.

(** X6: in 2D, with as many [ele_yy] as [ele_xx], [FWD] computes for each
    electrode the nested quadrature [potential_2D_nested]: for every point
    [yi] of the second axis the integrand sampled along the first axis is
    integrated against the abscissae of the second axis, these values are
    integrated against the abscissae of the first axis, and the result is
    divided by [2 * pi * sigma]. *)
Theorem FWD_2D_nested_quadrature
        (f : npfloat -> npfloat -> npfloat) (ele_xx ele_yy : list npfloat)
        (xlims ylims zlims : npfloat * npfloat) (res : nat) :
  length ele_yy = length ele_xx ->
  FWD simps (Profile2D f) ele_xx (Some ele_yy) None xlims ylims zlims res
  = for_each (fun e =>
                potential_2D_nested simps f
                  (mgrid_axis (fst xlims) (snd xlims) res)
                  (mgrid_axis (fst ylims) (snd ylims) res)
                  (linspace (fst xlims) (snd xlims) res)
                  (linspace (fst ylims) (snd ylims) res)
                  (fst e) (snd e))
             (combine ele_xx ele_yy).
Proof.
  intros Hlen.
  unfold FWD, FWD_dim. cbn [Nat.eqb]. unfold FWD_arm2.
  rewrite mgrid2_as_grid. cbn [call_profile2 bind ret].
  rewrite map2_grid2.
  set (ax := mgrid_axis (fst xlims) (snd xlims) res).
  set (ay := mgrid_axis (fst ylims) (snd ylims) res).
  set (xlin := linspace (fst xlims) (snd xlims) res).
  set (ylin := linspace (fst ylims) (snd ylims) res).
  set (G := fun ii : nat =>
              ex <- getitem ele_xx ii ;;
              ey <- getitem ele_yy ii ;;
              integrate_2D simps ex ey xlin ylin (grid2 f ax ay) (Fin 50)
                (grid2 (fun u _ => u) ax ay) (grid2 (fun _ v => v) ax ay)).
  rewrite (for_range_ext (length ele_xx) (zeros (length ele_xx)) _
             (fun ii pots => v <- G ii ;; setitem pots ii v))
    by (intros i a; unfold G; cbn [getitem_opt];
        destruct (getitem ele_xx i); [reflexivity|]; cbn [bind];
        destruct (getitem ele_yy i); reflexivity).
  rewrite for_range_zeros, for_each_map_result.
  replace (length ele_xx) with (length (combine ele_xx ele_yy))
    by (rewrite length_combine, Hlen; apply Nat.min_id).
  apply for_each_indexed.
  intros i [ex ey] Hi. apply nth_error_combine_inv in Hi.
  destruct Hi as [Hx Hy]. cbn [Nat.add fst snd fmul].
  unfold G, getitem. rewrite Hx, Hy. cbn [bind ret].
  rewrite integrate_2D_on_grid
    by (unfold ylin, ay; now rewrite linspace_length, mgrid_axis_length).
  unfold potential_2D_nested.
  destruct (for_each _ ay) as [e|I]; [reflexivity|]. cbn [bind].
  destruct (simps I xlin); reflexivity.
Qed.

Lemma integrate_3D_on_grid (f : npfloat -> npfloat -> npfloat -> npfloat)
      (x y z : npfloat) (xlim ylim zlim : npfloat * npfloat)
      (xlin ylin zlin ax ay az : list npfloat) :
  length ylin = length ay -> length zlin = length az ->
  integrate_3D simps x y z xlim ylim zlim (grid3 f ax ay az) xlin ylin zlin
               (grid3 (fun u _ _ => u) ax ay az)
               (grid3 (fun _ v _ => v) ax ay az)
               (grid3 (fun _ _ w => w) ax ay az)
  = (Iy <- for_each
             (fun yj =>
                Iz <- for_each
                        (fun zi =>
                           simps (map (fun xi =>
                                         fdiv (f xi yj zi)
                                              (floor_at dist_floor
                                                 (fsqrt
                                                    (fadd
                                                       (fadd
                                                          (fsquare (fsub x xi))
                                                          (fsquare (fsub y yj)))
                                                       (fsquare (fsub z zi))))))
                                      ax) zlin) az ;;
                simps Iz ylin) ay ;;
     simps Iy xlin).
Proof.
  intros Ly Lz. unfold integrate_3D.
  rewrite map3_grid3, map_grid3, map2_grid3.
  set (g := fun u v w : npfloat =>
              fdiv (f u v w)
                   (floor_at dist_floor
                      (fsqrt (fadd (fadd (fsquare (fsub x u))
                                         (fsquare (fsub y v)))
                                   (fsquare (fsub z w)))))).
  set (inner := fun j i : nat =>
                  col <- column3 (grid3 g ax ay az) j i ;; simps col zlin).
  rewrite (for_range_ext (length ylin) (zeros (length ylin)) _
             (fun j Iy =>
                v <- (Iz <- for_each (inner j) (seq 0 (length zlin)) ;;
                      simps Iz ylin) ;;
                setitem Iy j v)).
  2:{ intros j a.
      rewrite (for_range_ext (length zlin) (zeros (length zlin)) _
                 (fun i Iz => v <- inner j i ;; setitem Iz i v))
        by (intros i b; unfold inner; now rewrite bind_assoc).
      rewrite for_range_zeros. now rewrite bind_assoc. }
  rewrite for_range_zeros, Ly, Lz.
  rewrite (for_each_indexed
             (fun yj =>
                Iz <- for_each
                        (fun zi => simps (map (fun xi => g xi yj zi) ax) zlin)
                        az ;;
                simps Iz ylin) _ ay 0).
  - destruct (for_each _ ay) as [e|Iy]; [reflexivity|].
    cbn [bind]. apply bind_ret_r.
  - intros j yj Hj. cbn [Nat.add].
    rewrite (for_each_indexed
               (fun zi => simps (map (fun xi => g xi yj zi) ax) zlin)
               (inner j) az 0); [reflexivity|].
    intros i zi Hi. cbn [Nat.add]. unfold inner.
    now rewrite (column3_grid3 g ax ay az j i yj zi Hj Hi).
Qed.

(** X7: in 3D, with at least one grid point per axis and as many [ele_yy]
    and [ele_zz] as [ele_xx], [FWD] computes for each electrode the triple
    nested quadrature [potential_3D_nested] over the axes of the charge
    grid, divided by [4 * pi * sigma]. *)
Theorem FWD_3D_nested_quadrature
        (f : npfloat -> npfloat -> npfloat -> npfloat)
        (ele_xx ele_yy ele_zz : list npfloat)
        (xlims ylims zlims : npfloat * npfloat) (res : nat) :
  (0 < res)%nat ->
  length ele_yy = length ele_xx -> length ele_zz = length ele_xx ->
  FWD simps (Profile3D f) ele_xx (Some ele_yy) (Some ele_zz)
      xlims ylims zlims res
  = for_each (fun e =>
                potential_3D_nested simps f
                  (mgrid_axis (fst xlims) (snd xlims) res)
                  (mgrid_axis (fst ylims) (snd ylims) res)
                  (mgrid_axis (fst zlims) (snd zlims) res)
                  (fst (fst e)) (snd (fst e)) (snd e))
             (combine (combine ele_xx ele_yy) ele_zz).
Proof.
  intros Hres Lyy Lzz.
  unfold FWD, FWD_dim. cbn [Nat.eqb]. unfold FWD_arm3.
  rewrite mgrid3_as_grid. cbn [call_profile3 bind ret].
  rewrite map3_grid3.
  set (ax := mgrid_axis (fst xlims) (snd xlims) res).
  set (ay := mgrid_axis (fst ylims) (snd ylims) res).
  set (az := mgrid_axis (fst zlims) (snd zlims) res).
  assert (Lax : length ax = res) by apply mgrid_axis_length.
  assert (Lay : length ay = res) by apply mgrid_axis_length.
  assert (Laz : length az = res) by apply mgrid_axis_length.
  destruct (first_entry ax ltac:(lia)) as [x0 Hx0].
  destruct (first_entry ay ltac:(lia)) as [y0 Hy0].
  destruct (first_entry az ltac:(lia)) as [z0 Hz0].
  destruct (Nat.eqb_spec res 0) as [H0|_]; [lia|].
  rewrite (column3_grid3 (fun u _ _ => u) ax ay az 0 0 y0 z0 Hy0 Hz0).
  cbn [bind ret]. rewrite map_id.
  unfold first_axis.
  rewrite (grid3_first_plane (fun _ y _ => y) ax ay az x0 Hx0).
  cbn [bind ret].
  rewrite (column_grid2 (fun y _ => y) ay az 0 z0 Hz0).
  cbn [bind ret]. rewrite map_id.
  rewrite (grid3_first_plane (fun _ _ z => z) ax ay az x0 Hx0).
  cbn [bind ret].
  rewrite (grid2_first_row (fun _ z => z) ay az y0 Hy0).
  cbn [bind ret]. rewrite map_id.
  set (G := fun ii : nat =>
              ex <- getitem ele_xx ii ;;
              ey <- getitem ele_yy ii ;;
              ez <- getitem ele_zz ii ;;
              integrate_3D simps ex ey ez xlims ylims zlims
                (grid3 (fun u v w => f u v w) ax ay az) ax ay az
                (grid3 (fun u _ _ => u) ax ay az)
                (grid3 (fun _ v _ => v) ax ay az)
                (grid3 (fun _ _ w => w) ax ay az)).
  rewrite (for_range_ext (length ele_xx) (zeros (length ele_xx)) _
             (fun ii pots => v <- G ii ;; setitem pots ii v))
    by (intros i a; unfold G; cbn [getitem_opt];
        destruct (getitem ele_xx i); [reflexivity|]; cbn [bind];
        destruct (getitem ele_yy i); [reflexivity|]; cbn [bind];
        destruct (getitem ele_zz i); reflexivity).
  rewrite for_range_zeros, for_each_map_result.
  replace (length ele_xx)
    with (length (combine (combine ele_xx ele_yy) ele_zz))
    by (rewrite !length_combine, Lyy, Lzz, !Nat.min_id; reflexivity).
  apply for_each_indexed.
  intros i [[ex ey] ez] Hi. apply nth_error_combine_inv in Hi.
  destruct Hi as [Hxy Hz]. apply nth_error_combine_inv in Hxy.
  destruct Hxy as [Hx Hy]. cbn [Nat.add fst snd fmul].
  unfold G, getitem. rewrite Hx, Hy, Hz. cbn [bind ret].
  rewrite (integrate_3D_on_grid (fun u v w => f u v w)) by reflexivity.
  unfold potential_3D_nested.
  destruct (for_each _ ay) as [e|Iy]; [reflexivity|]. cbn [bind].
  destruct (simps Iy ax); reflexivity.
Qed.

End NestedQuadrature.

(** Two electrodes in the plane with both coordinates given. *)
Lemma FWD_2D_nested_quadrature_witness :
  length [Fin 0; Fin 1] = length [Fin 0; Fin (1 / 2)]
  /\ FWD simpson_uniform (Profile2D large_source_2D)
         [Fin 0; Fin (1 / 2)] (Some [Fin 0; Fin 1]) None
         default_lims default_lims default_lims 3
     = for_each (fun e =>
                   potential_2D_nested simpson_uniform large_source_2D
                     (mgrid_axis (Fin 0) (Fin 1) 3)
                     (mgrid_axis (Fin 0) (Fin 1) 3)
                     (linspace (Fin 0) (Fin 1) 3)
                     (linspace (Fin 0) (Fin 1) 3)
                     (fst e) (snd e))
                [(Fin 0, Fin 0); (Fin (1 / 2), Fin 1)].
Proof.
  assert (H : length [Fin 0; Fin 1] = length [Fin 0; Fin (1 / 2)])
    by reflexivity.
  split; [exact H|].
  exact (FWD_2D_nested_quadrature simpson_uniform large_source_2D
           [Fin 0; Fin (1 / 2)] [Fin 0; Fin 1]
           default_lims default_lims default_lims 3 H).
Defined.

(** One electrode in space with all three coordinates given. *)
Lemma FWD_3D_nested_quadrature_witness :
  (0 < 3)%nat
  /\ FWD simpson_uniform (Profile3D gauss_3d_dipole)
         [Fin (1 / 2)] (Some [Fin (1 / 2)]) (Some [Fin (1 / 2)])
         default_lims default_lims default_lims 3
     = for_each (fun e =>
                   potential_3D_nested simpson_uniform gauss_3d_dipole
                     (mgrid_axis (Fin 0) (Fin 1) 3)
                     (mgrid_axis (Fin 0) (Fin 1) 3)
                     (mgrid_axis (Fin 0) (Fin 1) 3)
                     (fst (fst e)) (snd (fst e)) (snd e))
                [((Fin (1 / 2), Fin (1 / 2)), Fin (1 / 2))].
Proof.
  assert (H : (0 < 3)%nat) by lia.
  split; [exact H|].
  exact (FWD_3D_nested_quadrature simpson_uniform gauss_3d_dipole
           [Fin (1 / 2)] [Fin (1 / 2)] [Fin (1 / 2)]
           default_lims default_lims default_lims 3 H eq_refl eq_refl).
Defined.

(* ================================================================== *)
(** * The test source profiles *)
(* ================================================================== *)



















Section ModuleProfiles.

Variable simps : list npfloat -> list npfloat -> result npfloat.



End ModuleProfiles.


(* ================================================================== *)
(** * More on the dispatch layer *)
(* ================================================================== *)

Lemma for_range_fill_rows {A} (G : nat -> result A) (n s : nat)
      (pre tail : list A) :
  length pre = s -> length tail = n ->
  for_range_from s n (pre ++ tail)
                 (fun ii acc => v <- G ii ;; setitem acc ii v)
  = (vs <- for_each G (seq s n) ;; ret (pre ++ vs)).
Proof.
  revert s pre tail.
  induction n as [|n IH]; intros s pre tail Hpre Htail.
  - destruct tail; [reflexivity|discriminate].
  - destruct tail as [|old tail]; [discriminate|].
    cbn [for_range_from seq for_each].
    destruct (G s) as [e|v]; [reflexivity|].
    cbn [bind]. unfold setitem.
    replace (s <? length (pre ++ old :: tail))%nat with true
      by (symmetry; apply Nat.ltb_lt; rewrite length_app; simpl; lia).
    cbn [bind ret]. rewrite <- Hpre, list_set_middle.
    replace (pre ++ v :: tail) with ((pre ++ [v]) ++ tail)
      by (now rewrite <- app_assoc).
    rewrite IH; [|rewrite length_app; simpl; lia|simpl in Htail; lia].
    rewrite Hpre.
    destruct (for_each G (seq (S s) n)) as [e|vs]; [reflexivity|].
    cbn [bind ret]. now rewrite <- app_assoc.
Qed.

(** The loop of lines 91-92 fills the matrix row by row. *)
Lemma input_matrix_rows (signals : list AnalogSignal) :
  input_matrix signals
  = match signals with
    | [] => inl (IndexError "index out of bounds")
    | first :: _ =>
        for_each (fun jj => broadcast_row (length (magnitude first))
                                          (rescale_mV jj))
                 signals
    end.
Proof.
  unfold input_matrix. destruct signals as [|first rest]; [reflexivity|].
  cbn [getitem nth_error bind ret].
  set (T := length (magnitude first)).
  set (sigs := first :: rest).
  rewrite (for_range_ext (length sigs) _ _
             (fun ii acc =>
                row <- (jj <- getitem sigs ii ;;
                        broadcast_row T (rescale_mV jj)) ;;
                setitem acc ii row))
    by (intros i a; now rewrite bind_assoc).
  unfold for_range.
  pose proof (for_range_fill_rows
                (fun ii => jj <- getitem sigs ii ;;
                           broadcast_row T (rescale_mV jj))
                (length sigs) 0 [] (repeat (zeros T) (length sigs)) eq_refl
                (repeat_length _ _)) as Hfill.
  cbn [app] in Hfill. rewrite Hfill, bind_ret_r.
  apply (for_each_getitem
           (fun jj => broadcast_row T (rescale_mV jj)) [] sigs).
Qed.

Lemma rescale_mV_length (s : AnalogSignal) :
  length (rescale_mV s) = length (magnitude s).
Proof. unfold rescale_mV. apply length_map. Qed.

(** X14: when every signal has as many samples as the first one, the
    matrix handed to the estimator has one row per signal, in the order of
    the signals, holding that signal's samples in millivolts. *)
Theorem input_matrix_uniform_signals
        (first : AnalogSignal) (rest : list AnalogSignal) :
  Forall (fun s => length (magnitude s) = length (magnitude first)) rest ->
  input_matrix (first :: rest) = inr (map rescale_mV (first :: rest)).
Proof.
  intros Hall. rewrite input_matrix_rows.
  assert (Hgen : forall l,
             Forall (fun s => length (magnitude s) = length (magnitude first))
                    l ->
             for_each (fun jj => broadcast_row (length (magnitude first))
                                               (rescale_mV jj)) l
             = inr (map rescale_mV l)).
  { induction l as [|s l IH]; intros Hl; [reflexivity|].
    inversion Hl as [|? ? Hs Hl']; subst.
    cbn [for_each map]. unfold broadcast_row at 1.
    rewrite rescale_mV_length, Hs, Nat.eqb_refl. cbn [bind ret].
    now rewrite (IH Hl'). }
  apply Hgen. constructor; [reflexivity|exact Hall].
Qed.

(** Two signals of one sample each, the second in volts. *)
Lemma input_matrix_uniform_signals_witness :
  input_matrix [one_sample 1 None;
                {| magnitude := [Fin 2]; units := V;
                   t_start := seconds 0; sampling_rate := hertz 1000;
                   channel_coordinate := None |}]
  = inr [[Fin (1 * 1)]; [Fin (1000 * 2)]].
Proof.
  apply (input_matrix_uniform_signals
           (one_sample 1 None)
           [{| magnitude := [Fin 2]; units := V;
               t_start := seconds 0; sampling_rate := hertz 1000;
               channel_coordinate := None |}]).
  repeat constructor.
Defined.

(** X15: a signal whose number of samples is neither that of the first
    signal nor one cannot be written into its row: the assembly of the
    matrix ends in numpy's broadcast [ValueError], provided the signals
    before it fit. *)
Theorem input_matrix_ragged_signals
        (first bad : AnalogSignal) (before after : list AnalogSignal) :
  Forall (fun s => length (magnitude s) = length (magnitude first)) before ->
  length (magnitude bad) <> length (magnitude first) ->
  length (magnitude bad) <> 1%nat ->
  input_matrix (first :: before ++ bad :: after)
  = inl (ValueError "could not broadcast input array" []).
Proof.
  intros Hbefore Hlen H1. rewrite input_matrix_rows.
  cbn [for_each]. unfold broadcast_row at 1.
  rewrite rescale_mV_length, Nat.eqb_refl. cbn [bind ret].
  assert (Hgen : for_each (fun jj => broadcast_row (length (magnitude first))
                                                   (rescale_mV jj))
                          (before ++ bad :: after)
                 = inl (ValueError "could not broadcast input array" [])).
  { induction before as [|s l IH].
    - cbn [app for_each]. unfold broadcast_row at 1.
      rewrite rescale_mV_length.
      destruct (Nat.eqb_spec (length (magnitude bad))
                             (length (magnitude first))) as [Heq|_];
        [contradiction|].
      pose proof (rescale_mV_length bad) as Hl.
      destruct (rescale_mV bad) as [|a [|b l]]; [reflexivity| |reflexivity].
      simpl in Hl. now contradiction H1.
    - inversion Hbefore as [|? ? Hs Hl']; subst.
      cbn [app for_each]. unfold broadcast_row at 1.
      rewrite rescale_mV_length, Hs, Nat.eqb_refl. cbn [bind ret].
      now rewrite (IH Hl'). }
  now rewrite Hgen.
Qed.

(** A first signal of two samples followed by one of three. *)
Lemma input_matrix_ragged_signals_witness :
  let s2 := {| magnitude := [Fin 1; Fin 2]; units := mV;
               t_start := seconds 0; sampling_rate := hertz 1000;
               channel_coordinate := None |} in
  let s3 := {| magnitude := [Fin 1; Fin 2; Fin 3]; units := mV;
               t_start := seconds 0; sampling_rate := hertz 1000;
               channel_coordinate := None |} in
  input_matrix [s2; s3]
  = inl (ValueError "could not broadcast input array" []).
Proof.
  intros s2 s3.
  apply (input_matrix_ragged_signals s2 s3 [] []).
  - constructor.
  - simpl. lia.
  - simpl. lia.
Defined.

Lemma long_coordinate_rejected (coords : list (list npfloat)) :
  Exists (fun c => (3 < length c)%nat) coords ->
  for_each (fun ii : list npfloat =>
              check (3 <? length ii)%nat
                (ValueError "Invalid number of coordinate positions" []))
           coords
  = inl (ValueError "Invalid number of coordinate positions" []).
Proof.
  intros Hex.
  destruct (check_dimensions_result coords) as [[us Hus]|Herr];
    [|exact Herr].
  apply check_dimensions_inv in Hus.
  rewrite Forall_forall in Hus. apply Exists_exists in Hex.
  destruct Hex as [c [Hin Hc]]. specialize (Hus c Hin). lia.
Qed.

Lemma scaled_coords_from_channels (signals : list AnalogSignal)
      (coords : list coordinate) :
  map channel_coordinate signals = map Some coords ->
  Forall has_units coords ->
  scaled_coords signals None = scaled_coords signals (Some coords).
Proof.
  unfold scaled_coords. revert coords.
  induction signals as [|s ss IH]; intros [|c cs] Hmap Hunits;
    try discriminate; [reflexivity|].
  cbn [map] in Hmap. injection Hmap as Hs Hrest.
  inversion Hunits as [|? ? Hc Hcs]; subst.
  cbn [for_each]. unfold channel_coordinate_mm at 1. rewrite Hs.
  destruct c as [xs u|vs]; [|contradiction].
  cbn [rescale_mm except_AttributeError bind ret].
  now rewrite (IH cs Hrest Hcs).
Qed.

Lemma cv_params_test_value (cv_params : dict) :
  cv_params_rejected cv_params = negb (truthy cv_params).
Proof.
  unfold cv_params_rejected, py_and, keys.
  destruct cv_params as [|kv cv]; reflexivity.
Qed.

Lemma tbind_lift_silent {A B} (r : result A) (f : A -> traced B) :
  (forall a, fst (f a) = []) -> fst (tbind (lift r) f) = [].
Proof.
  intros Hf. unfold tbind, lift. destruct r as [e|a]; [reflexivity|].
  specialize (Hf a). destruct (f a) as [l r']. exact Hf.
Qed.

Lemma tbind_lift_raise {A B} (e : exn) (f : A -> traced B) :
  tbind (lift (inl e)) f = ([], inl e).
Proof. reflexivity. Qed.

Section DispatchMore.

Variable kcsd : Type.
Variable kernel_method :
  string -> list (list npfloat) -> list (list npfloat) -> dict -> result kcsd.
Variable cross_validate : kcsd -> dict -> result kcsd.
Variable values : kcsd -> result ndarray.
Variable estm_x estm_y estm_z : kcsd -> result ndarray.

Local Abbreviation CSD' :=
  (CSD kernel_method cross_validate values estm_x estm_y estm_z).
Local Abbreviation estimate' :=
  (estimate kernel_method cross_validate values estm_x estm_y estm_z).

(** X16: a call without [method] whose coordinates rescale is turned
    away with the [ValueError] 'Must specify a method of CSD
    implementation', before the counts or the dimensionality are looked
    at and with no call into the estimator. *)
Theorem CSD_requires_method
        (signals : list AnalogSignal) (coords : option (list coordinate))
        (params cv_params : dict) (cs : list (list npfloat)) :
  scaled_coords signals coords = inr cs ->
  CSD' signals coords None params cv_params
  = ([], inl (ValueError "Must specify a method of CSD implementation" [])).
Proof.
  intros Hsc. rewrite CSD_stages, Hsc. reflexivity.
Qed.

(** X17: with a method named, as many coordinates as signals and all
    coordinates rescaled, one electrode with more than three components
    makes [CSD] raise the [ValueError] 'Invalid number of coordinate
    positions', whatever the method, with no call into the estimator. *)
Theorem CSD_rejects_long_coordinates
        (signals : list AnalogSignal) (coords : option (list coordinate))
        (name : string) (params cv_params : dict)
        (cs : list (list npfloat)) :
  scaled_coords signals coords = inr cs ->
  length cs = length signals ->
  Exists (fun c => (3 < length c)%nat) cs ->
  CSD' signals coords (Some name) params cv_params
  = ([], inl (ValueError "Invalid number of coordinate positions" [])).
Proof.
  intros Hsc Hlen Hlong. rewrite CSD_stages, Hsc.
  unfold validate. cbv beta iota delta [bind ret].
  rewrite Hlen, Nat.eqb_refl, (long_coordinate_rejected cs Hlong).
  reflexivity.
Qed.

(** X18: leaving [coords] out is the same as passing the coordinates of
    the signals' recording channels, when every signal has such a
    coordinate and it carries units. *)
Theorem CSD_coords_default_to_channel_coordinates
        (signals : list AnalogSignal) (coords : list coordinate)
        (method : option string) (params cv_params : dict) :
  map channel_coordinate signals = map Some coords ->
  Forall has_units coords ->
  CSD' signals None method params cv_params
  = CSD' signals (Some coords) method params cv_params.
Proof.
  intros Hmap Hunits. rewrite !CSD_stages.
  now rewrite (scaled_coords_from_channels signals coords Hmap Hunits).
Qed.

(** X19: without [coords], a signal that has no recording-channel
    coordinate, or one without units, makes [CSD] end in an
    [AttributeError] with no call into the estimator. *)
Theorem CSD_rejects_signal_without_coordinate
        (signals : list AnalogSignal) (method : option string)
        (params cv_params : dict) :
  Exists (fun s => match channel_coordinate s with
                   | Some c => ~ has_units c
                   | None => True
                   end) signals ->
  exists msg,
    CSD' signals None method params cv_params
    = ([], inl (AttributeError msg)).
Proof.
  intros Hex.
  assert (Hsc : exists msg,
             scaled_coords signals None = inl (AttributeError msg)).
  { unfold scaled_coords.
    induction signals as [|s ss IH]; [inversion Hex|].
    cbn [for_each]. unfold channel_coordinate_mm at 1.
    destruct (channel_coordinate s) as [[xs u|vs]|] eqn:Hs;
      cbn [rescale_mm bind raise ret]; try (eexists; reflexivity).
    inversion Hex as [? ? Hbad|? ? Hrest]; subst.
    - rewrite Hs in Hbad. exfalso. apply Hbad. exact I.
    - destruct (IH Hrest) as [msg Hmsg]. rewrite Hmsg.
      eexists; reflexivity. }
  destruct Hsc as [msg Hsc]. exists msg.
  rewrite CSD_stages, Hsc. reflexivity.
Qed.

(** X20: an empty list of signals, with [coords] left out or empty and a
    method named, gets past the count check and fails on [coords[0]] with
    an [IndexError]. *)
Theorem CSD_empty_input (name : string) (params cv_params : dict) :
  CSD' [] None (Some name) params cv_params
  = ([], inl (IndexError "index out of bounds"))
  /\ CSD' [] (Some []) (Some name) params cv_params
     = ([], inl (IndexError "index out of bounds")).
Proof. split; rewrite CSD_stages; reflexivity. Qed.

Ltac silent_tail :=
  repeat first
         [ reflexivity
         | apply tbind_lift_silent; intros
         | match goal with
           | |- context [if ?b then _ else _] => destruct b
           end ].

(** The estimator calls of [estimate], in order. *)
Lemma estimate_log (signals : list AnalogSignal)
      (cs : list (list npfloat)) (dim : nat) (name : string)
      (input : list (list npfloat)) (params cv_params : dict) :
  py_in name all_kernel_methods = true ->
  let run := estimate' signals cs dim name input params cv_params in
  let C := Constructed name cs input params in
  (fst run = [C] /\ exists e, snd run = inl e)
  \/ (truthy cv_params = true
      /\ fst run = [C; CrossValidated cv_params]
      /\ exists e, snd run = inl e)
  \/ (truthy cv_params = true
      /\ fst run = [C; CrossValidated cv_params; ValuesRead])
  \/ (truthy cv_params = false /\ fst run = [C; ValuesRead]).
Proof.
  intros Hin. cbv zeta. unfold estimate. rewrite Hin. cbn [andb].
  destruct (kernel_method name cs input params) as [e|k0].
  { rewrite tbind_call_raise. left. split; [reflexivity|now exists e]. }
  rewrite tbind_call_ok. cbn [fst snd].
  destruct (truthy cv_params) eqn:Hcv.
  - rewrite cv_params_test_value, Hcv. cbn [negb]. unfold check, ret.
    rewrite tbind_lift_ok.
    destruct (cross_validate k0 cv_params) as [e|k].
    { rewrite tbind_call_raise. right; left.
      repeat split; now exists e. }
    rewrite tbind_call_ok. cbn [fst snd].
    right; right; left. split; [reflexivity|].
    destruct (values k) as [e|raw].
    { now rewrite tbind_call_raise. }
    rewrite tbind_call_ok. cbn [fst]. do 3 f_equal. silent_tail.
  - unfold tret, ret. rewrite (tbind_lift_ok k0).
    right; right; right. split; [reflexivity|].
    destruct (values k0) as [e|raw].
    { now rewrite tbind_call_raise. }
    rewrite tbind_call_ok. cbn [fst]. do 2 f_equal. silent_tail.
Qed.

(** X21: the calls [CSD] makes into the estimator follow one protocol.
    Either none is made, or the method is one of the four kernel methods,
    the estimator is built once from the coordinates in millimetres and the
    signal matrix, [cross_validate] follows exactly when [cv_params] is not
    empty, and [values] is read last; a call that returns a result has
    gone through all of them. *)
Theorem CSD_estimator_call_protocol
        (signals : list AnalogSignal) (coords : option (list coordinate))
        (method : option string) (params cv_params : dict) :
  let run := CSD' signals coords method params cv_params in
  (fst run = [] /\ exists e, snd run = inl e)
  \/ exists name cs input,
      method = Some name
      /\ py_in name all_kernel_methods = true
      /\ scaled_coords signals coords = inr cs
      /\ input_matrix signals = inr input
      /\ let C := Constructed name cs input params in
         (fst run = [C] /\ exists e, snd run = inl e)
         \/ (truthy cv_params = true
             /\ fst run = [C; CrossValidated cv_params]
             /\ exists e, snd run = inl e)
         \/ (truthy cv_params = true
             /\ fst run = [C; CrossValidated cv_params; ValuesRead])
         \/ (truthy cv_params = false /\ fst run = [C; ValuesRead]).
Proof.
  cbv zeta. rewrite CSD_stages.
  destruct (scaled_coords signals coords) as [e|cs] eqn:Hsc;
    [left; split; [reflexivity|now exists e]|].
  destruct (validate signals cs method) as [e|[dim name]] eqn:Hv;
    [left; split; [reflexivity|now exists e]|].
  destruct (input_matrix signals) as [e|input] eqn:Hin;
    [left; split; [reflexivity|now exists e]|].
  apply validate_success in Hv.
  destruct Hv as (c0 & rest & _ & _ & _ & Hm & _).
  destruct (py_in name all_kernel_methods) eqn:Hk.
  - right. exists name, cs, input.
    repeat (split; [assumption || reflexivity|]).
    exact (estimate_log signals cs dim name input params cv_params Hk).
  - left. unfold estimate. rewrite Hk.
    split; [reflexivity|eexists; reflexivity].
Qed.

End DispatchMore.

(** One electrode with units and no method. *)
Lemma CSD_requires_method_witness :
  scaled_coords [one_sample 1 None] (Some [Quantity [Fin 1] um])
  = inr [[Fin (1 / 1000 * 1)]]
  /\ stub_CSD [one_sample 1 None] (Some [Quantity [Fin 1] um]) None [] []
     = ([], inl (ValueError "Must specify a method of CSD implementation" [])).
Proof.
  assert (H : scaled_coords [one_sample 1 None] (Some [Quantity [Fin 1] um])
              = inr [[Fin (1 / 1000 * 1)]]) by reflexivity.
  split; [exact H|].
  exact (CSD_requires_method nat stub_kernel_method stub_cross_validate
           stub_values stub_axis stub_axis stub_axis
           [one_sample 1 None] (Some [Quantity [Fin 1] um]) [] [] _ H).
Defined.

(** One electrode with four components. *)
Lemma CSD_rejects_long_coordinates_witness :
  Exists (fun c : list npfloat => (3 < length c)%nat)
         [[Fin (1 * 0); Fin (1 * 0); Fin (1 * 0); Fin (1 * 0)]]
  /\ stub_CSD [one_sample 1 None]
              (Some [Quantity [Fin 0; Fin 0; Fin 0; Fin 0] mm])
              (Some "KCSD3D") [] []
     = ([], inl (ValueError "Invalid number of coordinate positions" [])).
Proof.
  assert (H : Exists (fun c : list npfloat => (3 < length c)%nat)
                     [[Fin (1 * 0); Fin (1 * 0); Fin (1 * 0); Fin (1 * 0)]])
    by (constructor; simpl; lia).
  split; [exact H|].
  exact (CSD_rejects_long_coordinates nat stub_kernel_method
           stub_cross_validate stub_values stub_axis stub_axis stub_axis
           [one_sample 1 None]
           (Some [Quantity [Fin 0; Fin 0; Fin 0; Fin 0] mm])
           "KCSD3D" [] [] _ eq_refl eq_refl H).
Defined.

(** Two signals on channels at 0.1 mm and 300 um. *)
Lemma CSD_coords_default_to_channel_coordinates_witness :
  let c1 := Quantity [Fin (1 / 10)] mm in
  let c2 := Quantity [Fin 300] um in
  stub_CSD [one_sample 1 (Some c1); one_sample 2 (Some c2)] None
           (Some "KCSD1D") [] []
  = stub_CSD [one_sample 1 (Some c1); one_sample 2 (Some c2)]
             (Some [c1; c2]) (Some "KCSD1D") [] [].
Proof.
  intros c1 c2.
  apply (CSD_coords_default_to_channel_coordinates
           nat stub_kernel_method stub_cross_validate stub_values
           stub_axis stub_axis stub_axis).
  - reflexivity.
  - repeat constructor.
Defined.

(** A signal attached to no channel. *)
Lemma CSD_rejects_signal_without_coordinate_witness :
  exists msg,
    stub_CSD [one_sample 1 (Some (Quantity [Fin 0] mm)); one_sample 2 None]
             None (Some "KCSD1D") [] []
    = ([], inl (AttributeError msg)).
Proof.
  apply (CSD_rejects_signal_without_coordinate
           nat stub_kernel_method stub_cross_validate stub_values
           stub_axis stub_axis stub_axis).
  apply Exists_cons_tl. apply Exists_cons_hd. exact I.
Defined.
